(** * PodcastRepeater: a shallow embedding of [PodcastRepeater.py]

    The program turns a podcast RSS feed into a static web site.  This file
    embeds the pipeline of [make_site] and proves the properties stated for it.

    - Python values produced by the XML parser are the inductive [value].
    - Python exceptions are the type [exn]; a computation returns a [result].
    - Code that mutates an object or the outside world is written in the
      state-and-exception monad [M S]: the state survives a raised exception,
      as the side effects of a Python statement do.
    - The outside world is a file system, a tree of directories and files
      addressed by paths that are resolved name by name, and the list of
      the GET requests issued. *)

From Stdlib Require Import ZArith Ascii String.
From stdpp Require Import base option list gmap strings.

Open Scope string_scope.
Set Warnings "-register-all".

(** ** Exceptions and results *)

(** The last four are the subclasses of [OSError] that the operations on
    files raise; [OSError] itself stands for any other error of the
    operating system.  [RecursionError] is never raised below. *)
Inductive exn : Type :=
  | KeyError (key : string)
  | TypeError
  | AttributeError
  | ValueError
  | RequestException
  | ExpatError
  | UnidentifiedImageError
  | TemplateNotFound
  | UndefinedError
  | RecursionError
  | OSError
  | FileNotFoundError
  | NotADirectoryError
  | IsADirectoryError
  | FileExistsError.

Inductive result (A : Type) : Type :=
  | Ok (a : A)
  | Raise (e : exn).
Arguments Ok {A} a.
Arguments Raise {A} e.

Definition is_KeyError (e : exn) : bool :=
  match e with KeyError _ => true | _ => false end.

Definition result_bind {A B} (r : result A) (k : A -> result B) : result B :=
  match r with Ok a => k a | Raise e => Raise e end.

(** ** The state-and-exception monad *)

Definition M (S A : Type) : Type := S -> S * result A.

Definition ret {S A} (a : A) : M S A := fun s => (s, Ok a).

Definition bind {S A B} (m : M S A) (k : A -> M S B) : M S B :=
  fun s => match m s with
           | (s', Ok a) => k a s'
           | (s', Raise e) => (s', Raise e)
           end.

Definition raise {S A} (e : exn) : M S A := fun s => (s, Raise e).

Definition lift {S A} (r : result A) : M S A := fun s => (s, r).

Definition get_state {S} : M S S := fun s => (s, Ok s).

Definition put_state {S} (s' : S) : M S unit := fun _ => (s', Ok tt).

#[global] Instance M_ret {S} : MRet (M S) := fun A => @ret S A.
#[global] Instance M_bind {S} : MBind (M S) := fun A B k m => @bind S A B m k.

(** ** Python values of a parsed feed

    [xmltodict.parse] yields [None] for an empty element, a [str] for text
    and attribute values, a [dict] for an element with attributes or children
    and a [list] where a child tag is repeated.  A [dict] keeps insertion
    order, so it is an association list. *)

Inductive value : Type :=
  | VNone
  | VStr (s : string)
  | VDict (d : list (string * value))
  | VList (l : list value).

Fixpoint dict_get (d : list (string * value)) (k : string) : option value :=
  match d with
  | [] => None
  | (k', v) :: d' => if String.eqb k k' then Some v else dict_get d' k
  end.

(** [d[k] = v]: an existing key keeps its position, a new key goes last. *)
Fixpoint dict_set (d : list (string * value)) (k : string) (v : value)
  : list (string * value) :=
  match d with
  | [] => [(k, v)]
  | (k', v') :: d' =>
      if String.eqb k k' then (k', v) :: d' else (k', v') :: dict_set d' k v
  end.

(** [v[k]] for a string key [k]. *)
Definition getitem (v : value) (k : string) : result value :=
  match v with
  | VDict d => match dict_get d k with
               | Some x => Ok x
               | None => Raise (KeyError k)
               end
  | _ => Raise TypeError
  end.

(** [v[k] = x] for a string key [k]. *)
Definition setitem (v : value) (k : string) (x : value) : result value :=
  match v with
  | VDict d => Ok (VDict (dict_set d k x))
  | _ => Raise TypeError
  end.

(** [needle in hay] on strings: substring search. *)
Fixpoint str_contains (needle hay : string) : bool :=
  String.prefix needle hay
  || match hay with
     | EmptyString => false
     | String _ hay' => str_contains needle hay'
     end.

Definition is_str (k : string) (v : value) : bool :=
  match v with VStr s => String.eqb k s | _ => false end.

(** [k in v] for a string [k]: key membership on a dict, substring search on
    a str, element membership on a list; [None] is not iterable. *)
Definition contains (k : string) (v : value) : result bool :=
  match v with
  | VDict d => Ok (bool_decide (is_Some (dict_get d k)))
  | VStr s => Ok (str_contains k s)
  | VList l => Ok (existsb (is_str k) l)
  | VNone => Raise TypeError
  end.

(** The values a [for] loop draws from [v]: the elements of a list, the keys
    of a dict, the characters of a str. *)
Definition chars (s : string) : list value :=
  map (fun c => VStr (String c EmptyString)) (list_ascii_of_string s).

Definition iterate (v : value) : result (list value) :=
  match v with
  | VList l => Ok l
  | VDict d => Ok (map (fun kv => VStr (fst kv)) d)
  | VStr s => Ok (chars s)
  | VNone => Raise TypeError
  end.

(** ** Python string operations

    A [str] is modelled by [string]: a sequence of characters with codes
    below 256.  Indices are [nat]; a search that fails returns [None] where
    Python returns [-1].  The functions of [os.path] and [urllib.parse]
    below belong to Python's standard library, which the program imports;
    they follow [Lib/posixpath.py] and [Lib/urllib/parse.py] of CPython. *)

Definition code (c : ascii) : nat := nat_of_ascii c.

Definition between (lo hi : nat) (c : ascii) : bool :=
  (lo <=? code c)%nat && (code c <=? hi)%nat.

Definition is_digit : ascii -> bool := between 48 57.
Definition is_upper : ascii -> bool := between 65 90.
Definition is_lower : ascii -> bool := between 97 122.
Definition is_alpha (c : ascii) : bool := is_upper c || is_lower c.
Definition is_alnum (c : ascii) : bool := is_alpha c || is_digit c.

Definition to_lower (c : ascii) : ascii :=
  if is_upper c then ascii_of_nat (code c + 32) else c.

Fixpoint str_map (f : ascii -> ascii) (s : string) : string :=
  match s with
  | EmptyString => EmptyString
  | String c s' => String (f c) (str_map f s')
  end.

Fixpoint str_forall (p : ascii -> bool) (s : string) : bool :=
  match s with
  | EmptyString => true
  | String c s' => p c && str_forall p s'
  end.

(** [s.find(c)] *)
Fixpoint find (c : ascii) (s : string) : option nat :=
  match s with
  | EmptyString => None
  | String x s' => if Ascii.eqb x c then Some 0%nat else S <$> find c s'
  end.

(** [s.rfind(c)] *)
Fixpoint rfind (c : ascii) (s : string) : option nat :=
  match s with
  | EmptyString => None
  | String x s' =>
      match rfind c s' with
      | Some i => Some (S i)
      | None => if Ascii.eqb x c then Some 0%nat else None
      end
  end.

(** [s[:n]] and [s[n:]] *)
Fixpoint slice_to (n : nat) (s : string) : string :=
  match n, s with
  | S n', String c s' => String c (slice_to n' s')
  | _, _ => EmptyString
  end.

Fixpoint slice_from (n : nat) (s : string) : string :=
  match n, s with
  | S n', String _ s' => slice_from n' s'
  | _, _ => s
  end.

(** [s.find(c, start)] *)
Definition find_from (c : ascii) (start : nat) (s : string) : option nat :=
  (fun i => (start + i)%nat) <$> find c (slice_from start s).

(** [c in s] for a character [c] *)
Definition has (c : ascii) (s : string) : bool :=
  match find c s with Some _ => true | None => false end.

(** [s.lstrip(chars)] and the removal of every character of a set. *)
Fixpoint lstrip (p : ascii -> bool) (s : string) : string :=
  match s with
  | EmptyString => EmptyString
  | String c s' => if p c then lstrip p s' else s
  end.

Fixpoint remove_chars (p : ascii -> bool) (s : string) : string :=
  match s with
  | EmptyString => EmptyString
  | String c s' => if p c then remove_chars p s' else String c (remove_chars p s')
  end.

(** [s.split(c, 1)] when [c] occurs in [s]; [(s, "")] otherwise, which is
    what every caller below does in its [else] branch. *)
Definition split1 (c : ascii) (s : string) : string * string :=
  match find c s with
  | Some i => (slice_to i s, slice_from (S i) s)
  | None => (s, "")
  end.

(** *** [posixpath.basename] and [posixpath.join] *)

Definition basename (p : string) : string :=
  let i := match rfind "/" p with Some j => S j | None => 0%nat end in
  slice_from i p.

Definition starts_with_sep (b : string) : bool :=
  match b with String c _ => Ascii.eqb c "/" | EmptyString => false end.

Fixpoint ends_with_sep (p : string) : bool :=
  match p with
  | EmptyString => false
  | String c EmptyString => Ascii.eqb c "/"
  | String _ p' => ends_with_sep p'
  end.

Definition join_step (path b : string) : string :=
  if starts_with_sep b then b
  else if String.eqb path "" || ends_with_sep path then path ++ b
  else path ++ "/" ++ b.

Definition join (a : string) (p : list string) : string :=
  foldl join_step a p.

(** *** [urllib.parse.urlparse] *)

Definition uses_params : list string :=
  [""; "ftp"; "hdl"; "prospero"; "http"; "imap"; "https"; "shttp"; "rtsp";
   "rtspu"; "sip"; "sips"; "mms"; "sftp"; "tel"].

Definition is_scheme_char (c : ascii) : bool :=
  is_alnum c || Ascii.eqb c "+" || Ascii.eqb c "-" || Ascii.eqb c ".".

Definition is_c0_control_or_space (c : ascii) : bool := (code c <=? 32)%nat.

Definition is_unsafe_url_byte (c : ascii) : bool :=
  (code c =? 9)%nat || (code c =? 13)%nat || (code c =? 10)%nat.

Definition str_in (s : string) (l : list string) : bool :=
  existsb (String.eqb s) l.

Definition first_char (s : string) : ascii :=
  match s with String c _ => c | EmptyString => zero end.

(** [_splitnetloc(url, start)]: the network location ends at the earliest
    of the delimiters [/], [?] and [#]. *)
Definition splitnetloc (url : string) (start : nat) : string * string :=
  let delim :=
    foldl (fun delim c =>
             match find_from c start url with
             | Some wdelim => Nat.min delim wdelim
             | None => delim
             end)
          (String.length url) ["/"; "?"; "#"]%char in
  (slice_from start (slice_to delim url), slice_from delim url).

(** [_splitparams(url)]: the parameters start at the first [;] of the last
    path segment. *)
Definition splitparams (url : string) : string * string :=
  let i := match rfind "/" url with
           | Some j => find_from ";" j url
           | None => find ";" url
           end in
  match i with
  | Some i => (slice_to i url, slice_from (S i) url)
  | None => (url, "")
  end.

Record ParseResult : Type := mkParseResult {
  scheme : string;
  netloc : string;
  path : string;
  params : string;
  query : string;
  fragment : string
}.

Section UrlParse.

(** The checks [urlsplit] runs on a non-empty network location (balanced
    brackets, the syntax of a bracketed host, the NFKC check); a location
    that fails them raises [ValueError]. *)
Variable netloc_ok : string -> bool.

Definition split_scheme (url : string) : string * string :=
  match find ":" url with
  | Some (S i) =>
      if is_alpha (first_char url) && str_forall is_scheme_char (slice_to (S i) url)
      then (str_map to_lower (slice_to (S i) url), slice_from (S (S i)) url)
      else ("", url)
  | _ => ("", url)
  end.

Definition urlsplit (url : string)
  : result (string * string * string * string * string) :=
  let url := lstrip is_c0_control_or_space url in
  let url := remove_chars is_unsafe_url_byte url in
  let '(scheme, url) := split_scheme url in
  let '(netloc, url) :=
    if String.eqb (slice_to 2 url) "//" then splitnetloc url 2 else ("", url) in
  if negb (String.eqb netloc "") && negb (netloc_ok netloc) then Raise ValueError
  else
    let '(url, fragment) := split1 "#" url in
    let '(url, query) := split1 "?" url in
    Ok (scheme, netloc, url, query, fragment).

Definition urlparse (url : string) : result ParseResult :=
  match urlsplit url with
  | Raise e => Raise e
  | Ok (scheme, netloc, url, query, fragment) =>
      let '(url, params) :=
        if str_in scheme uses_params && has ";" url then splitparams url
        else (url, "") in
      Ok (mkParseResult scheme netloc url params query fragment)
  end.

(** [os.path.basename(urlparse(url).path)] *)
Definition url_file_name (url : string) : result string :=
  match urlparse url with
  | Ok r => Ok (basename (path r))
  | Raise e => Raise e
  end.

End UrlParse.

(** *** [slugify] *)

Definition sep : ascii := "-"%char.

Definition is_sep (c : ascii) : bool := Ascii.eqb c sep.

Definition slug_char (c : ascii) : ascii :=
  if is_alnum c then to_lower c else sep.

(** A run of separators becomes one separator. *)
Fixpoint collapse (s : string) : string :=
  match s with
  | EmptyString => EmptyString
  | String c s' =>
      if is_sep c && is_sep (first_char s') then collapse s'
      else String c (collapse s')
  end.

Fixpoint rstrip (p : ascii -> bool) (s : string) : string :=
  match s with
  | EmptyString => EmptyString
  | String c s' =>
      match rstrip p s' with
      | EmptyString => if p c then EmptyString else String c EmptyString
      | r => String c r
      end
  end.

Definition strip (p : ascii -> bool) (s : string) : string :=
  rstrip p (lstrip p s).

(** Modelled from the spec: [slugify] comes from the [slugify] package, which
    is not part of the repository.  The spec derives the slug from the title
    as "lowercase, non-alphanumeric runs collapsed to a single separator,
    leading/trailing separators trimmed"; the separator is the hyphen, and
    the alphanumeric characters are the ASCII letters and digits. *)
Definition slugify (text : string) : string :=
  strip is_sep (collapse (str_map slug_char text)).

(** ** The episode extractor *)

#[global] Instance result_ret : MRet result := fun A => @Ok A.
#[global] Instance result_mbind : MBind result :=
  fun A B k r => @result_bind A B r k.
#[global] Instance result_fmap : FMap result :=
  fun A B f r => match r with Ok a => Ok (f a) | Raise e => Raise e end.

Definition item_get (k : string) : M value value :=
  fun item => (item, getitem item k).

Definition item_set (k : string) (x : value) : M value unit :=
  fun item => match setitem item k x with
              | Ok item' => (item', Ok tt)
              | Raise e => (item, Raise e)
              end.

Definition item_has (k : string) : M value bool :=
  fun item => (item, contains k item).

(** [slugify(v)]: the package decodes anything that is not a [str] as
    bytes, which fails with a [TypeError] on the other values of a feed. *)
Definition py_slugify (v : value) : result value :=
  match v with
  | VStr s => Ok (VStr (slugify s))
  | _ => Raise TypeError
  end.

Section Extractor.

Variable netloc_ok : string -> bool.

(** [markdown(text, extensions=["mdx_linkify"])], from the [markdown]
    package: the rendering of a [str] is left abstract. *)
Variable markdown : string -> string.

(** [markdown(v, ...)] calls [v.strip()] first, an [AttributeError] on a
    value that is not a [str]. *)
Definition py_markdown (v : value) : result value :=
  match v with
  | VStr s => Ok (VStr (markdown s))
  | _ => Raise AttributeError
  end.

(** [urlparse(v).path].  The parser only ever gives an attribute a [str]
    value; on anything else the model reports a [TypeError]. *)
Definition py_url_path (v : value) : result string :=
  match v with
  | VStr u => path <$> urlparse netloc_ok u
  | _ => Raise TypeError
  end.

(** The body of the loop of [process_episodes], run on one item.  The
    state is the item itself: the assignments update it in place, and the
    result tells whether the item was appended to [episodes]. *)
Definition process_item : M value bool :=
  b ← item_has "enclosure";
  if b : bool then
    enclosure ← item_get "enclosure";
    url ← lift (getitem enclosure "@url");
    item_set "url" url;;
    title ← item_get "title";
    slug ← lift (py_slugify title);
    item_set "slug" slug;;
    description ← item_get "description";
    html ← lift (py_markdown description);
    item_set "description" html;;
    url ← item_get "url";
    url_path ← lift (py_url_path url);
    item_set "file_name" (VStr (basename url_path));;
    mret true
  else mret false.

(** The loop over the item sequence.  The state is the sequence of item
    objects; [episodes] holds references to item objects, written as
    their positions in the sequence.  An exception leaves the items
    processed so far updated. *)
Fixpoint process_items (i : nat) (items : list value)
  : list value * result (list nat) :=
  match items with
  | [] => ([], Ok [])
  | item :: rest =>
      match process_item item with
      | (item', Raise e) => (item' :: rest, Raise e)
      | (item', Ok b) =>
          let '(rest', r) := process_items (S i) rest in
          (item' :: rest', (fun refs => if b : bool then i :: refs else refs) <$> r)
      end
  end.

End Extractor.

Section ProcessEpisodes.

Variable netloc_ok : string -> bool.
Variable markdown : string -> string.

(** [podcast['rss']['channel']['item']] *)
Definition feed_items (podcast : value) : result value :=
  rss ← getitem podcast "rss";
  channel ← getitem rss "channel";
  getitem channel "item".

(** The object under key [k] of a dict replaced by [f] of it; the dict
    object itself stays where it is. *)
Fixpoint dict_alter (f : value -> value) (k : string)
  (d : list (string * value)) : list (string * value) :=
  match d with
  | [] => []
  | (k', v) :: d' =>
      if String.eqb k k' then (k', f v) :: d' else (k', v) :: dict_alter f k d'
  end.

Definition at_key (k : string) (f : value -> value) (v : value) : value :=
  match v with
  | VDict d => VDict (dict_alter f k d)
  | _ => v
  end.

(** The feed after the objects of its item list took the states [items]:
    the items are reached through [podcast['rss']['channel']['item']], so
    an update of an item is an update of the feed. *)
Definition with_items (items : list value) (podcast : value) : value :=
  at_key "rss" (at_key "channel" (at_key "item" (fun _ => VList items))) podcast.

(** [process_episodes(podcast)].  The state is the feed.  A [for] loop
    over a dict or a str draws fresh strings, which no assignment can
    update; only the elements of a list are objects of the feed. *)
Definition process_episodes : M value (list nat) :=
  fun podcast =>
    match feed_items podcast with
    | Raise e => (podcast, Raise e)
    | Ok iterable =>
        match iterate iterable with
        | Raise e => (podcast, Raise e)
        | Ok items =>
            let '(items', r) := process_items netloc_ok markdown 0 items in
            (match iterable with
             | VList _ => with_items items' podcast
             | _ => podcast
             end, r)
        end
    end.

(** The item objects that a list of references denotes in a feed. *)
Definition episodes_of (podcast : value) (refs : list nat) : list value :=
  match feed_items podcast with
  | Ok (VList items) => omap (fun i => items !! i) refs
  | _ => []
  end.

End ProcessEpisodes.

(** ** The outside world: files and HTTP *)

Inductive node : Type :=
  | File (content : string)
  | Dir.

(** A file system without links.  A node is addressed by its key, the
    names on the way from the root down to it; the root, with the empty
    key, is a directory.  [cwd] is the key of the directory that relative
    paths start from: the program never changes it. *)
Record filesystem : Type := mkFs {
  nodes : gmap (list string) node;
  cwd : list string
}.

(** The world of a run: the file system, and [http_log], the URLs of the
    GET requests issued so far, oldest first. *)
Record world : Type := mkWorld {
  fs : filesystem;
  http_log : list string
}.

Record response : Type := mkResponse {
  status_code : Z;
  content : string
}.

Record config : Type := mkConfig {
  feed_URL : string;
  output_dir : string;
  theme_dir : string
}.

Record image : Type := mkImage {
  width : Z;
  height : Z;
  pixels : string
}.

(** What a template is rendered with: [config] and the keyword arguments
    the renderer passes. *)
Record context : Type := mkContext {
  ctx_config : config;
  ctx_episodes : option (list value);
  ctx_episode : option value;
  ctx_podcast : option value
}.

Definition node_at (f : filesystem) (k : list string) : option node :=
  match k with
  | [] => Some Dir
  | _ => nodes f !! k
  end.

Definition put (k : list string) (n : node) (f : filesystem) : filesystem :=
  mkFs (<[k := n]> (nodes f)) (cwd f).

Definition unlink (k : list string) (f : filesystem) : filesystem :=
  mkFs (delete k (nodes f)) (cwd f).

(** *** Path resolution

    What the operating system does with a path, as POSIX describes it for
    a file system without links and with every directory searchable. *)

(** [s.split(c)] *)
Fixpoint split_on (c : ascii) (s : string) : list string :=
  match s with
  | EmptyString => [""]
  | String x s' =>
      if Ascii.eqb x c then "" :: split_on c s'
      else match split_on c s' with
           | seg :: segs => String x seg :: segs
           | [] => [String x ""]
           end
  end.

(** One name of a path, looked up in the directory reached so far: an
    empty name (between two slashes, or after the last one) is skipped;
    any other name needs a directory to be looked up in; [.] stays there,
    [..] goes to the parent, which for the root is the root; a name of
    more than 255 characters is refused. *)
Definition walk_step (f : filesystem) (cur : result (list string)) (name : string)
  : result (list string) :=
  match cur with
  | Raise e => Raise e
  | Ok k =>
      if String.eqb name "" then Ok k
      else match node_at f k with
           | None => Raise FileNotFoundError
           | Some (File _) => Raise NotADirectoryError
           | Some Dir =>
               if String.eqb name "." then Ok k
               else if String.eqb name ".." then Ok (removelast k)
               else if (255 <? String.length name)%nat then Raise OSError
               else Ok (k ++ [name])%list
           end
  end.

(** The key a path leads to: every name but the last one must be an
    existing directory; whether the last one exists is left open. *)
Definition locate (f : filesystem) (p : string) : result (list string) :=
  fold_left (walk_step f) (split_on "/" p)
    (Ok (if starts_with_sep p then [] else cwd f)).

(** The checks made on the path as a whole: it is not empty, holds no
    null character (Python raises [ValueError] on one) and is shorter than
    4096 characters. *)
Definition path_ok (p : string) : bool :=
  negb (String.eqb p "") && negb (has Ascii.zero p)
  && (String.length p <? 4096)%nat.

(** The key of a path, and whether the path ends with a slash. *)
Definition resolve (f : filesystem) (p : string) : result (list string * bool) :=
  if String.eqb p "" then Raise FileNotFoundError
  else if has Ascii.zero p then Raise ValueError
  else if negb (String.length p <? 4096)%nat then Raise OSError
  else match locate f p with
       | Ok k => Ok (k, ends_with_sep p)
       | Raise e => Raise e
       end.

(** [os.stat(p)]: a path that ends with a slash denotes a directory. *)
Definition stat (f : filesystem) (p : string) : result node :=
  match resolve f p with
  | Raise e => Raise e
  | Ok (k, slash) =>
      match node_at f k with
      | None => Raise FileNotFoundError
      | Some Dir => Ok Dir
      | Some (File c) =>
          if slash : bool then Raise NotADirectoryError else Ok (File c)
      end
  end.

(** [os.path.exists(p)]: whether [os.stat(p)] returns. *)
Definition fs_exists (f : filesystem) (p : string) : bool :=
  match stat f p with Ok _ => true | Raise _ => false end.

Definition path_exists (p : string) : M world bool :=
  fun w => (w, Ok (fs_exists (fs w) p)).

(** [os.mkdir(p)] *)
Definition mkdir (p : string) : M world unit :=
  fun w => match resolve (fs w) p with
           | Raise e => (w, Raise e)
           | Ok (k, _) =>
               match node_at (fs w) k with
               | Some _ => (w, Raise FileExistsError)
               | None => (mkWorld (put k Dir (fs w)) (http_log w), Ok tt)
               end
           end.

(** [open(p, 'w')]: the file is created, or emptied when it is there; the
    value returned is the key of the open file.  A directory, and a path
    that ends with a slash, cannot be opened for writing. *)
Definition open_write (p : string) : M world (list string) :=
  fun w => match resolve (fs w) p with
           | Raise e => (w, Raise e)
           | Ok (k, slash) =>
               match node_at (fs w) k with
               | Some Dir => (w, Raise IsADirectoryError)
               | _ =>
                   if slash then (w, Raise IsADirectoryError)
                   else (mkWorld (put k (File "") (fs w)) (http_log w), Ok k)
               end
           end.

(** [f.write(data)], followed by [f.close()], on the open file [k]. *)
Definition write_at (k : list string) (data : string) : M world unit :=
  fun w => (mkWorld (put k (File data) (fs w)) (http_log w), Ok tt).

(** [open(p, 'w').write(data)], and the same in a [with] statement. *)
Definition write_file (p : string) (data : string) : M world unit :=
  k ← open_write p;
  write_at k data.

(** [os.remove(p)] *)
Definition remove (p : string) : M world unit :=
  fun w => match resolve (fs w) p with
           | Raise e => (w, Raise e)
           | Ok (k, slash) =>
               match node_at (fs w) k with
               | None => (w, Raise FileNotFoundError)
               | Some Dir => (w, Raise IsADirectoryError)
               | Some (File _) =>
                   if slash then (w, Raise NotADirectoryError)
                   else (mkWorld (unlink k (fs w)) (http_log w), Ok tt)
               end
           end.

(** *** [os.makedirs] *)

Definition is_slash (c : ascii) : bool := Ascii.eqb c "/".

(** [posixpath.split(p)] *)
Definition py_split (p : string) : string * string :=
  let i := match rfind "/" p with Some j => S j | None => 0%nat end in
  let head := slice_to i p in
  let tail := slice_from i p in
  (if negb (String.eqb head "") && negb (str_forall is_slash head)
   then rstrip is_slash head else head,
   tail).

(** [try: m except FileExistsError: pass] *)
Definition except_file_exists (m : M world unit) : M world unit :=
  fun w => match m w with
           | (w', Raise FileExistsError) => (w', Ok tt)
           | r => r
           end.

(** [os.makedirs(name)], after [Lib/os.py]: the function calls itself on
    the head of the path when that does not exist, then makes the
    directory.  The head of a path is shorter than the path, so the depth
    of the recursion is bounded by the length of [name]: [fuel] counts the
    calls that are left.  The limit that the interpreter sets to the depth
    of a recursion is not modelled. *)
Fixpoint makedirs_fuel (fuel : nat) (name : string) : M world unit :=
  match fuel with
  | O => raise RecursionError
  | S fuel' =>
      let '(head, tail) := py_split name in
      let '(head, tail) :=
        if String.eqb tail "" then py_split head else (head, tail) in
      b ← path_exists head;
      if negb (String.eqb head "") && negb (String.eqb tail "") && negb b then
        except_file_exists (makedirs_fuel fuel' head);;
        if String.eqb tail "." then mret tt else mkdir name
      else mkdir name
  end.

Definition makedirs (name : string) : M world unit :=
  makedirs_fuel (S (String.length name)) name.

(** A value used where the library needs a [str]. *)
Definition as_str (v : value) : result string :=
  match v with
  | VStr s => Ok s
  | _ => Raise TypeError
  end.

(** *** [Image.thumbnail] *)

(** [max(min(floor(number), ceil(number), key=key), 1)] for the rational
    [number = num / den]; [le_key a b] says that the key of [a] is at most
    the key of [b], and [min] keeps its first argument on a tie. *)
Definition round_aspect (num den : Z) (le_key : Z -> Z -> bool) : Z :=
  let lo := (num / den)%Z in
  let hi := (if (num mod den =? 0)%Z then lo else lo + 1)%Z in
  Z.max (if le_key lo hi then lo else hi) 1.

(** Modelled from the spec: [Image.thumbnail] belongs to the PIL package,
    which is not part of the repository.  The spec asks for "a thumbnail
    bounded to 1000x1000 preserving aspect ratio (downscale only, never
    upscale)".  The size is computed as Pillow documents it, with exact
    rational arithmetic: an image that fits the box [(x, y)] keeps its size
    ([None]); otherwise one side is cut to the box and the other is the
    neighbouring whole number of pixels that keeps the ratio [w / h] best,
    and at least 1. *)
Definition thumbnail_size (w h x y : Z) : option (Z * Z) :=
  if (w <=? x)%Z && (h <=? y)%Z then None
  else if (y * w <=? x * h)%Z then
    (* x / y >= w / h: the height is cut to y, the width is near y * w / h *)
    Some (round_aspect (y * w) h
            (fun a b => (Z.abs (w * y - a * h) <=? Z.abs (w * y - b * h))%Z), y)
  else
    (* the width is cut to x, the height is near x * h / w *)
    Some (x, round_aspect (x * h) w
               (fun a b => (a =? 0)%Z
                           || (Z.abs (w * a - x * h) * b <=? Z.abs (w * b - x * h) * a)%Z)).

Section Pipeline.

Variable netloc_ok : string -> bool.
Variable markdown : string -> string.

(** [requests.get(url)]: what the network answers to a GET of [url]
    (redirects followed), or the exception raised when no response
    arrives.  A response of any status is a response. *)
Variable network : string -> result response.

(** [xmltodict.parse(text)] *)
Variable xmltodict_parse : string -> result value.

(** [Image.open(BytesIO(data))] with the pixels decoded, which fails on
    data that is no image; what the encoder of [img.save] produces for an
    image (with or without [optimize=True]), or the exception it raises;
    and the pixels of an image resampled to a new size. *)
Variable Image_open : string -> result image.
Variable encode : image -> bool -> result string.
Variable resample : image -> Z -> Z -> string.

(** [Environment(loader=FileSystemLoader(dir)).get_template(name)
    .render(...)]: lookup and rendering of a template may raise. *)
Variable render_template : string -> string -> context -> result string.

(** [requests.get(url)] *)
Definition requests_get (url : value) : M world response :=
  fun w =>
    match url with
    | VStr u => (mkWorld (fs w) (http_log w ++ [u]), network u)
    | _ => (w, Raise RequestException)
    end.

(** [img.save(path)], after [Image.save] of the PIL package: the
    destination is opened for writing, which empties a file that is there,
    before the image is encoded; when the encoder raises, a file that the
    call created is removed again and the exception is passed on. *)
Definition save (img : image) (p : string) (optimize : bool) : M world unit :=
  b ← path_exists p;
  let created := negb b in
  k ← open_write p;
  match encode img optimize with
  | Ok data => write_at k data
  | Raise e => (if created then remove p else mret tt);; raise e
  end.

(** [img.thumbnail((x, y))] *)
Definition thumbnail (img : image) (x y : Z) : image :=
  match thumbnail_size (width img) (height img) x y with
  | None => img
  | Some (x', y') =>
      if (x' =? width img)%Z && (y' =? height img)%Z then img
      else mkImage x' y' (resample img x' y')
  end.

Definition download_and_parse_feed (url : string) : M world value :=
  r ← requests_get (VStr url);
  lift (xmltodict_parse (content r)).

Definition download_audio_file (config : config) (episode : value) : M world unit :=
  file_name ← lift (getitem episode "file_name" ≫= as_str);
  let file_path := join (output_dir config) ["audio"; file_name] in
  b ← path_exists file_path;
  if negb b then
    url ← lift (enclosure ← getitem episode "enclosure"; getitem enclosure "@url");
    r ← requests_get url;
    write_file file_path (content r)
  else mret tt.

Fixpoint download_audio_files (config : config) (episodes : list value)
  : M world unit :=
  match episodes with
  | [] => mret tt
  | episode :: rest =>
      download_audio_file config episode;;
      download_audio_files config rest
  end.

Definition download_and_resize_cover_image (output_dir : string)
  (cover_art_url : value) : M world unit :=
  let cover_art_path := join output_dir ["cover_art.jpg"] in
  let small_cover_art_path := join output_dir ["small_cover_art.jpg"] in
  b ← path_exists cover_art_path;
  if b : bool then mret tt
  else
    response ← requests_get cover_art_url;
    img ← lift (Image_open (content response));
    save img cover_art_path false;;
    let img := thumbnail img 1000 1000 in
    save img small_cover_art_path true.

Fixpoint make_dirs_loop (output_dir : string) (dirs : list string) : M world unit :=
  match dirs with
  | [] => mret tt
  | dir :: rest =>
      let dir_path := join output_dir [dir] in
      b ← path_exists dir_path;
      (if negb b then makedirs dir_path else mret tt);;
      make_dirs_loop output_dir rest
  end.

Definition make_dirs (output_dir : string) : M world unit :=
  make_dirs_loop output_dir ["audio"; "episode"].

Definition render_episode (config : config) (podcast : value) (theme_env : string)
  (episode : value) : M world unit :=
  slug ← lift (getitem episode "slug" ≫= as_str);
  let episode_dir := join (output_dir config) ["episode"; slug] in
  b ← path_exists episode_dir;
  (if negb b then makedirs episode_dir else mret tt);;
  let episode_path := join episode_dir ["index.html"] in
  output ← lift (render_template theme_env "episode.html"
                   (mkContext config None (Some episode) (Some podcast)));
  write_file episode_path output.

Fixpoint render_episodes (config : config) (episodes : list value)
  (podcast : value) (theme_env : string) : M world unit :=
  match episodes with
  | [] => mret tt
  | episode :: rest =>
      render_episode config podcast theme_env episode;;
      render_episodes config rest podcast theme_env
  end.

Definition render_front_page (config : config) (episodes : list value)
  (podcast : value) (theme_env : string) : M world unit :=
  let frontpage_path := join (output_dir config) ["index.html"] in
  output ← lift (render_template theme_env "frontpage.html"
                   (mkContext config (Some episodes) None (Some podcast)));
  write_file frontpage_path output.

Definition render_sitemap (config : config) (episodes : list value)
  (template_env : string) : M world unit :=
  let file_path := join (output_dir config) ["sitemap.xml"] in
  output ← lift (render_template template_env "sitemap.xml"
                   (mkContext config (Some episodes) None None));
  write_file file_path output.

(** The [try] of [make_site]: a [KeyError] of [process_episodes] gives
    the empty list, any other exception propagates.  The feed keeps the
    updates made before the exception. *)
Definition try_process_episodes (podcast : value) : value * result (list value) :=
  match process_episodes netloc_ok markdown podcast with
  | (podcast', Ok refs) => (podcast', Ok (episodes_of podcast' refs))
  | (podcast', Raise (KeyError _)) => (podcast', Ok [])
  | (podcast', Raise e) => (podcast', Raise e)
  end.

(** [podcast['rss']['channel']['itunes:image']['@href']] *)
Definition cover_art_href (podcast : value) : result value :=
  rss ← getitem podcast "rss";
  channel ← getitem rss "channel";
  img ← getitem channel "itunes:image";
  getitem img "@href".

(** The stages of [make_site] that follow the extraction. *)
Definition make_site_rest (config : config) (podcast : value)
  (episodes : list value) : M world unit :=
  let template_env := "templates" in
  let theme_env := theme_dir config in
  download_audio_files config episodes;;
  href ← lift (cover_art_href podcast);
  download_and_resize_cover_image (output_dir config) href;;
  render_sitemap config episodes template_env;;
  render_front_page config episodes podcast theme_env;;
  render_episodes config episodes podcast theme_env.

Definition make_site (config : config) : M world unit :=
  make_dirs (output_dir config);;
  podcast ← download_and_parse_feed (feed_URL config);
  let '(podcast, r) := try_process_episodes podcast in
  episodes ← lift r;
  make_site_rest config podcast episodes.

End Pipeline.

(** ** Notions used in the statements *)

(** An item that carries an enclosure element. *)
Definition has_enclosure (item : value) : bool :=
  match item with
  | VDict d => bool_decide (is_Some (dict_get d "enclosure"))
  | _ => false
  end.

(** The enclosure URL, the title and the description of an item, when the
    item is a mapping that holds all three as strings. *)
Definition item_fields (item : value) : option (string * string * string) :=
  match item with
  | VDict d =>
      match dict_get d "enclosure", dict_get d "title", dict_get d "description" with
      | Some (VDict e), Some (VStr title), Some (VStr description) =>
          match dict_get e "@url" with
          | Some (VStr url) => Some (url, title, description)
          | _ => None
          end
      | _, _, _ => None
      end
  | _ => None
  end.

Section Statements.

Variable netloc_ok : string -> bool.
Variable markdown : string -> string.

(** An item the extractor handles without an exception: a mapping which,
    when it carries an enclosure, has a URL that parses, a title and a
    description. *)
Definition item_ok (item : value) : bool :=
  match item with
  | VDict d =>
      negb (has_enclosure item)
      || match item_fields item with
         | Some (url, _, _) =>
             match urlparse netloc_ok url with Ok _ => true | Raise _ => false end
         | None => false
         end
  | _ => false
  end.

(** The episode record of an enclosure-bearing item: the item with its
    four derived entries.  Other items are left as they are. *)
Definition episode_record (item : value) : value :=
  match item, item_fields item with
  | VDict d, Some (url, title, description) =>
      match urlparse netloc_ok url with
      | Ok r =>
          VDict (dict_set
                   (dict_set
                      (dict_set (dict_set d "url" (VStr url))
                         "slug" (VStr (slugify title)))
                      "description" (VStr (markdown description)))
                   "file_name" (VStr (basename (path r))))
      | Raise _ => item
      end
  | _, _ => item
  end.

(** The positions of the enclosure-bearing items, counted from [i]. *)
Fixpoint enclosure_refs (i : nat) (items : list value) : list nat :=
  match items with
  | [] => []
  | item :: rest =>
      if has_enclosure item then i :: enclosure_refs (S i) rest
      else enclosure_refs (S i) rest
  end.

End Statements.

(** The characters of a slug: lower-case letters, digits and the
    separator. *)
Definition is_slug_char (c : ascii) : bool :=
  is_lower c || is_digit c || is_sep c.

Definition url_safe (s : string) : bool := str_forall is_slug_char s.

(** The directory and the page of the episode with a given slug. *)
Definition episode_dir (config : config) (slug : string) : string :=
  join (output_dir config) ["episode"; slug].

Definition episode_page (config : config) (slug : string) : string :=
  join (episode_dir config slug) ["index.html"].

(** The directory that holds the episode directories. *)
Definition episodes_root (config : config) : string :=
  join_step (output_dir config) "episode".

(** The page an episode is rendered to. *)
Definition episode_page_of (config : config) (episode : value) : option string :=
  match getitem episode "slug" with
  | Ok (VStr slug) => Some (episode_page config slug)
  | _ => None
  end.

(** The key that a path leads to when every directory on its way exists:
    the names of the path, taken from the root or from the directory [c],
    with the empty names and [.] dropped and [..] resolved. *)
Definition key_step (k : list string) (name : string) : list string :=
  if String.eqb name "" then k
  else if String.eqb name "." then k
  else if String.eqb name ".." then removelast k
  else (k ++ [name])%list.

Definition path_key (c : list string) (p : string) : list string :=
  fold_left key_step (split_on "/" p) (if starts_with_sep p then [] else c).

(** The slug of an episode record. *)
Definition episode_slug (episode : value) : option string :=
  match getitem episode "slug" with
  | Ok (VStr slug) => Some slug
  | _ => None
  end.

(** A name of a file or a directory: not empty, without a slash, neither
    [.] nor [..], and of 255 characters at most. *)
Definition is_name (s : string) : bool :=
  negb (String.eqb s "") && negb (has "/" s) && negb (String.eqb s ".")
  && negb (String.eqb s "..") && (String.length s <=? 255)%nat.

(** The file system with a directory at [k], unless something is there. *)
Definition with_dir (k : list string) (f : filesystem) : filesystem :=
  match node_at f k with
  | Some _ => f
  | None => put k Dir f
  end.

(** Three ways in which a file system changes.  [adds_dirs]: every node
    stays as it is, and what is new is a directory.  [extends]: every
    node stays as it is.  [grows]: every directory stays a directory and
    every file stays a file, whose content may change. *)
Definition adds_dirs (f f' : filesystem) : Prop :=
  cwd f' = cwd f
  /\ forall k, node_at f' k = node_at f k
               \/ (node_at f k = None /\ node_at f' k = Some Dir).

Definition extends (f f' : filesystem) : Prop :=
  cwd f' = cwd f
  /\ forall k, is_Some (node_at f k) -> node_at f' k = node_at f k.

Definition grows (f f' : filesystem) : Prop :=
  cwd f' = cwd f
  /\ (forall k, node_at f k = Some Dir -> node_at f' k = Some Dir)
  /\ (forall k c, node_at f k = Some (File c) ->
                  exists c', node_at f' k = Some (File c')).

Section Renderable.

Variable render_template : string -> string -> context -> result string.
Variable config : config.
Variable podcast : value.

(** What [render_episodes] renders an episode to. *)
Definition episode_output (episode : value) : result string :=
  render_template (theme_dir config) "episode.html"
    (mkContext config None (Some episode) (Some podcast)).

(** An episode that can be rendered in a file system: its slug is a slug
    that can name a directory, its template renders, the directory that
    holds the episode directories is there, the path of its page passes
    the checks on a path, no file is in the place of its directory and no
    directory in the place of its page. *)
Definition renderable (f : filesystem) (episode : value) : Prop :=
  exists slug out,
    getitem episode "slug" = Ok (VStr slug)
    /\ url_safe slug = true
    /\ slug <> ""
    /\ (String.length slug <= 255)%nat
    /\ episode_output episode = Ok out
    /\ path_ok (episode_page config slug) = true
    /\ stat f (episodes_root config) = Ok Dir
    /\ (forall c, node_at f (path_key (cwd f) (episode_dir config slug))
                  <> Some (File c))
    /\ node_at f (path_key (cwd f) (episode_page config slug)) <> Some Dir.

End Renderable.

(** *** The file name, following the spec's words

    "The final path segment of the audio URL (query string and fragment
    excluded)", read with the generic URL syntax
    [scheme:[//authority]path[?query][#fragment]]: the scheme is a letter
    followed by letters, digits, [+], [-] and [.]; the authority ends at the
    first [/], [?] or [#]; the path ends at the first [?] or [#]. *)

Fixpoint take_while (p : ascii -> bool) (s : string) : string :=
  match s with
  | EmptyString => EmptyString
  | String c s' => if p c then String c (take_while p s') else EmptyString
  end.

Fixpoint drop_while (p : ascii -> bool) (s : string) : string :=
  match s with
  | EmptyString => EmptyString
  | String c s' => if p c then drop_while p s' else s
  end.

(** The scheme characters in front of the first colon, and what follows
    the colon. *)
Fixpoint scan_scheme (s : string) : option (string * string) :=
  match s with
  | EmptyString => None
  | String c s' =>
      if Ascii.eqb c ":" then Some (EmptyString, s')
      else if is_scheme_char c
           then (fun ab => (String c (fst ab), snd ab)) <$> scan_scheme s'
           else None
  end.

Definition spec_scheme (url : string) : option (string * string) :=
  if is_alpha (first_char url) then scan_scheme url else None.

Definition without_scheme (url : string) : string :=
  match spec_scheme url with
  | Some (_, rest) => rest
  | None => url
  end.

Definition is_authority_end (c : ascii) : bool :=
  Ascii.eqb c "/" || Ascii.eqb c "?" || Ascii.eqb c "#".

Definition is_path_end (c : ascii) : bool :=
  Ascii.eqb c "?" || Ascii.eqb c "#".

Definition without_authority (s : string) : string :=
  match s with
  | String a (String b t) =>
      if Ascii.eqb a "/" && Ascii.eqb b "/"
      then drop_while (fun c => negb (is_authority_end c)) t
      else s
  | _ => s
  end.

Definition spec_path (url : string) : string :=
  take_while (fun c => negb (is_path_end c)) (without_authority (without_scheme url)).

Fixpoint last_segment (s : string) : string :=
  match s with
  | EmptyString => EmptyString
  | String c s' =>
      if has "/" s' then last_segment s'
      else if Ascii.eqb c "/" then s' else s
  end.

Definition spec_file_name (url : string) : string :=
  last_segment (spec_path url).

(** A path without the parameters of its last segment: the structural
    reading of [_splitparams]. *)
Fixpoint params_cut (p : string) : string :=
  match p with
  | EmptyString => EmptyString
  | String c p' =>
      if has "/" p' then String c (params_cut p')
      else if Ascii.eqb c "/"
           then String c (take_while (fun x => negb (Ascii.eqb x ";")) p')
           else take_while (fun x => negb (Ascii.eqb x ";")) p
  end.

(** What [urlsplit] does to a URL before it splits it: leading control
    characters and spaces are dropped, and so is every tab, carriage
    return and line feed. *)
Definition clean_url (url : string) : string :=
  remove_chars is_unsafe_url_byte (lstrip is_c0_control_or_space url).

(** The parameters that [urlparse] cuts from the last path segment when
    the scheme takes parameters. *)
Definition without_params (scheme name : string) : string :=
  if str_in scheme uses_params then take_while (fun c => negb (Ascii.eqb c ";")) name
  else name.

(** A computation that, run in the directory [c], leaves an existing node
    as it is, whether it returns or raises. *)
Definition keeps {A : Type} (c k : list string) (m : M world A) : Prop :=
  forall w, cwd (fs w) = c ->
    cwd (fs (fst (m w))) = c
    /\ (is_Some (node_at (fs w) k) ->
        node_at (fs (fst (m w))) k = node_at (fs w) k).

(** ** A worked example *)

Definition no_brackets (n : string) : bool := negb (has "[" n) && negb (has "]" n).

Definition demo_markdown (s : string) : string := "<p>" ++ s ++ "</p>".

Definition item_one : value :=
  VDict [("title", VStr "Episode One!");
         ("description", VStr "First.");
         ("enclosure", VDict [("@url", VStr "https://cdn.example/ep1.mp3?token=abc");
                              ("@type", VStr "audio/mpeg")])].

Definition item_two : value :=
  VDict [("title", VStr "News"); ("description", VStr "No audio.")].

Definition item_untitled : value :=
  VDict [("description", VStr "Lost title.");
         ("enclosure", VDict [("@url", VStr "https://cdn.example/ep3.mp3")])].

Definition feed_of (items : value) : value :=
  VDict [("rss", VDict [("@version", VStr "2.0");
                        ("channel", VDict [("title", VStr "Show");
                                           ("itunes:image", VDict [("@href", VStr "https://cdn.example/art.png")]);
                                           ("item", items)])])].

Definition demo_feed : value := feed_of (VList [item_one; item_two]).

Definition item_three : value :=
  VDict [("title", VStr "Episode Three");
         ("description", VStr "Third.");
         ("enclosure", VDict [("@url", VStr "https://cdn.example/ep3.mp3")])].

Definition untitled_feed : value :=
  feed_of (VList [item_one; item_untitled; item_three]).

(** The feed of a channel without any item, of an [rss] element that has
    a version and no channel, and of an empty [rss] element, for which the
    parser gives [None]. *)
Definition empty_feed : value :=
  VDict [("rss", VDict [("@version", VStr "2.0");
                        ("channel", VDict [("title", VStr "Show");
                                           ("itunes:image", VDict [("@href", VStr "https://cdn.example/art.png")])])])].

Definition channelless_feed : value :=
  VDict [("rss", VDict [("@version", VStr "2.0")])].

Definition hollow_feed : value := VDict [("rss", VNone)].

(** A small network: five feed documents, one of them served with status
    404, two audio files and a cover image; any other host is unreachable. *)
Definition demo_network (url : string) : result response :=
  if String.eqb url "https://pod.example/feed.xml" then Ok (mkResponse 200 "<rss>two items</rss>")
  else if String.eqb url "https://pod.example/untitled.xml" then Ok (mkResponse 200 "<rss>untitled</rss>")
  else if String.eqb url "https://pod.example/empty.xml" then Ok (mkResponse 200 "<rss>no items</rss>")
  else if String.eqb url "https://pod.example/bare.xml" then Ok (mkResponse 200 "<rss version='2.0'/>")
  else if String.eqb url "https://pod.example/hollow.xml" then Ok (mkResponse 200 "<rss/>")
  else if String.eqb url "https://pod.example/gone.xml" then Ok (mkResponse 404 "<error>not found</error>")
  else if String.eqb url "https://cdn.example/ep1.mp3?token=abc" then Ok (mkResponse 200 "audio one")
  else if String.eqb url "https://cdn.example/ep3.mp3" then Ok (mkResponse 200 "audio three")
  else if String.eqb url "https://cdn.example/art.png" then Ok (mkResponse 200 "cover")
  else Raise RequestException.

Definition demo_parse (text : string) : result value :=
  if String.eqb text "<rss>two items</rss>" then Ok demo_feed
  else if String.eqb text "<rss>untitled</rss>" then Ok untitled_feed
  else if String.eqb text "<rss>no items</rss>" then Ok empty_feed
  else if String.eqb text "<rss version='2.0'/>" then Ok channelless_feed
  else if String.eqb text "<rss/>" then Ok hollow_feed
  else if String.eqb text "<error>not found</error>" then Ok (VDict [("error", VStr "not found")])
  else Raise ExpatError.

Definition demo_Image_open (data : string) : result image :=
  if String.eqb data "cover" then Ok (mkImage 3000 2001 "cover pixels")
  else Raise UnidentifiedImageError.

Definition demo_encode (img : image) (optimize : bool) : result string :=
  Ok ((if optimize then "optimized jpeg of " else "jpeg of ") ++ pixels img).

Definition demo_resample (img : image) (x y : Z) : string :=
  "small " ++ pixels img.

Definition demo_render (env name : string) (ctx : context) : result string :=
  Ok (env ++ "/" ++ name).

Definition demo_config (feed : string) : config :=
  mkConfig feed "site" "theme".

(** The worlds of the example: the program runs in the root directory.
    In [empty_world] the root is empty; in [site_world] the output
    directory holds the two directories of [make_dirs]. *)
Definition empty_world : world := mkWorld (mkFs ∅ []) [].

Definition site_files : gmap (list string) node :=
  {[ ["site"] := Dir; ["site"; "audio"] := Dir; ["site"; "episode"] := Dir ]}.

Definition site_world : world := mkWorld (mkFs site_files []) [].

Definition demo_make_site (feed : string) : M world unit :=
  make_site no_brackets demo_markdown demo_network demo_parse
    demo_Image_open demo_encode demo_resample demo_render (demo_config feed).

(** The first episode of the example, as the extractor leaves it, and a
    world in which its audio file is already there. *)
Definition episode_one : value := episode_record no_brackets demo_markdown item_one.

Definition sentinel_world : world :=
  mkWorld (put ["site"; "audio"; "ep1.mp3"] (File "sentinel") (fs site_world)) [].

(** A world that holds the pages of an earlier run. *)
Definition stale_world : world :=
  mkWorld
    (put ["site"; "episode"; "episode-one"; "index.html"] (File "old page")
       (put ["site"; "episode"; "episode-one"] Dir
          (put ["site"; "index.html"] (File "old front page")
             (put ["site"; "sitemap.xml"] (File "old sitemap") (fs site_world)))))
    [].

(** A world in which the full-size cover is there and the thumbnail is not. *)
Definition cover_world : world :=
  mkWorld (put ["site"; "cover_art.jpg"] (File "old cover") (fs site_world)) [].

Definition demo_image : image := mkImage 3000 2001 "cover pixels".

(** The destination of the audio file of an episode. *)
Definition audio_path (config : config) (episode : value) : result string :=
  file_name ← getitem episode "file_name" ≫= as_str;
  mret (join (output_dir config) ["audio"; file_name]).

(** The enclosure URL of an episode. *)
Definition enclosure_url (episode : value) : result value :=
  enclosure ← getitem episode "enclosure"; getitem enclosure "@url".

(** An episode record that holds all that the later stages look up: the
    audio URL, also under the enclosure, the slug and the file name. *)
Definition episode_complete (episode : value) : Prop :=
  exists url slug file_name,
    getitem episode "url" = Ok (VStr url)
    /\ enclosure_url episode = Ok (VStr url)
    /\ getitem episode "slug" = Ok (VStr slug)
    /\ getitem episode "file_name" = Ok (VStr file_name).

(** A channel with one item only: the parser gives the mapping of the
    item, not a list.  The network below serves such a feed as well. *)
Definition single_item_feed : value := feed_of item_one.

Definition wide_network (url : string) : result response :=
  if String.eqb url "https://pod.example/single.xml"
  then Ok (mkResponse 200 "<rss>one item</rss>")
  else demo_network url.

Definition wide_parse (text : string) : result value :=
  if String.eqb text "<rss>one item</rss>" then Ok single_item_feed
  else demo_parse text.

Definition wide_make_site (feed : string) : M world unit :=
  make_site no_brackets demo_markdown wide_network wide_parse
    demo_Image_open demo_encode demo_resample demo_render (demo_config feed).

(** The third episode of the example, and an episode whose audio is on a
    host that does not answer. *)
Definition episode_three : value := episode_record no_brackets demo_markdown item_three.

Definition episode_lost : value :=
  VDict [("enclosure", VDict [("@url", VStr "https://gone.example/lost.mp3")]);
         ("url", VStr "https://gone.example/lost.mp3");
         ("slug", VStr "lost");
         ("file_name", VStr "lost.mp3")].

(** An episode on another host whose file name is that of the first. *)
Definition episode_mirror : value :=
  VDict [("enclosure", VDict [("@url", VStr "https://cdn.example/ep3.mp3")]);
         ("url", VStr "https://cdn.example/ep3.mp3");
         ("slug", VStr "mirror");
         ("file_name", VStr "ep1.mp3")].

(** An encoder that fails on the optimized save. *)
Definition fragile_encode (img : image) (optimize : bool) : result string :=
  if optimize then Raise OSError else Ok ("jpeg of " ++ pixels img).

(** A renderer whose episode template is missing. *)
Definition pageless_render (env name : string) (ctx : context) : result string :=
  if String.eqb name "episode.html" then Raise TemplateNotFound
  else Ok (env ++ "/" ++ name).

(** Two episodes with one slug. *)
Definition episode_rerun : value :=
  VDict [("title", VStr "Episode one"); ("slug", VStr "episode-one")].

(** A renderer that shows the title of the episode it is given. *)
Definition titled_render (env name : string) (ctx : context) : result string :=
  match ctx_episode ctx with
  | Some episode =>
      match getitem episode "title" with
      | Ok (VStr title) => Ok (name ++ " of " ++ title)
      | _ => Raise UndefinedError
      end
  | None => Ok name
  end.

(** * Properties *)

(** ** Dictionaries *)

Lemma dict_get_set_eq d k v : dict_get (dict_set d k v) k = Some v.
Proof.
  induction d as [|[k' v'] d IH]; simpl.
  - by rewrite String.eqb_refl.
  - destruct (String.eqb k k') eqn:E; simpl; rewrite E; auto.
Qed.

Lemma dict_get_set_ne d k k' v :
  k <> k' -> dict_get (dict_set d k v) k' = dict_get d k'.
Proof.
  intros Hne. induction d as [|[k0 v0] d IH]; simpl.
  - apply String.eqb_neq in Hne. rewrite String.eqb_sym. by rewrite Hne.
  - destruct (String.eqb k k0) eqn:E; simpl.
    + apply String.eqb_eq in E. subst k0.
      assert (String.eqb k' k = false) as -> by (apply String.eqb_neq; congruence).
      done.
    + destruct (String.eqb k' k0); auto.
Qed.

Lemma dict_get_alter_eq f k d :
  dict_get (dict_alter f k d) k = f <$> dict_get d k.
Proof.
  induction d as [|[k' v'] d IH]; simpl; [done|].
  destruct (String.eqb k k') eqn:E; simpl; rewrite E; auto.
Qed.


(** A feed whose item list can be reached still has one after the items
    were updated, and it is the updated list. *)
Lemma feed_items_with_items items podcast v :
  feed_items podcast = Ok v ->
  feed_items (with_items items podcast) = Ok (VList items).
Proof.
  unfold feed_items, with_items. intros H.
  destruct podcast as [| |d|]; try discriminate. simpl in *.
  rewrite dict_get_alter_eq.
  destruct (dict_get d "rss") as [rss|]; [|discriminate]. simpl in *.
  destruct rss as [| |dr|]; try discriminate. simpl in *.
  rewrite dict_get_alter_eq.
  destruct (dict_get dr "channel") as [ch|]; [|discriminate]. simpl in *.
  destruct ch as [| |dc|]; try discriminate. simpl in *.
  rewrite dict_get_alter_eq.
  destruct (dict_get dc "item"); [done|discriminate].
Qed.


(** ** The extractor on one item *)

Section ExtractorFacts.

Variable netloc_ok : string -> bool.
Variable markdown : string -> string.

Lemma process_item_without_enclosure item :
  item_ok netloc_ok item = true ->
  has_enclosure item = false ->
  process_item netloc_ok markdown item = (item, Ok false).
Proof.
  destruct item as [| |d|]; try discriminate. intros _ H.
  unfold process_item, mbind, M_bind, bind, item_has. simpl in *.
  by rewrite H.
Qed.

Lemma episode_record_without_enclosure item :
  has_enclosure item = false -> episode_record netloc_ok markdown item = item.
Proof.
  destruct item as [| |d|]; try done. simpl. intros H.
  unfold episode_record, item_fields.
  destruct (dict_get d "enclosure") as [e|] eqn:E; [|done].
  by rewrite bool_decide_eq_false in H; destruct H.
Qed.

Lemma process_item_ok item :
  item_ok netloc_ok item = true ->
  process_item netloc_ok markdown item
  = (episode_record netloc_ok markdown item, Ok (has_enclosure item)).
Proof.
  intros Hok. destruct (has_enclosure item) eqn:He.
  2:{ rewrite episode_record_without_enclosure by done.
      by apply process_item_without_enclosure. }
  destruct item as [| |d|]; try discriminate.
  unfold item_ok in Hok. rewrite He in Hok. cbn [negb orb] in Hok.
  unfold episode_record.
  destruct (item_fields (VDict d)) as [[[url title] description]|] eqn:Hf;
    [|discriminate].
  destruct (urlparse netloc_ok url) as [r|] eqn:Hu; [|discriminate].
  unfold item_fields in Hf.
  destruct (dict_get d "enclosure") as [[| |e|]|] eqn:E1; try discriminate.
  destruct (dict_get d "title") as [[|t| |]|] eqn:E2; try discriminate.
  destruct (dict_get d "description") as [[|ds| |]|] eqn:E3; try discriminate.
  destruct (dict_get e "@url") as [[|u| |]|] eqn:E4; try discriminate.
  injection Hf as -> -> ->.
  unfold process_item, mbind, M_bind, bind, item_has, item_get, item_set, lift.
  unfold contains. simpl in He. rewrite He.
  unfold getitem at 1. rewrite E1.
  unfold getitem at 1. rewrite E4. cbn [setitem].
  unfold getitem at 1. rewrite dict_get_set_ne, E2 by done. cbn [py_slugify setitem].
  unfold getitem at 1. rewrite !dict_get_set_ne, E3 by done. cbn [py_markdown setitem].
  unfold getitem at 1. rewrite !dict_get_set_ne, dict_get_set_eq by done.
  cbn [py_url_path]. unfold fmap, result_fmap. rewrite Hu. done.
Qed.

Lemma process_items_ok i items :
  forallb (item_ok netloc_ok) items = true ->
  process_items netloc_ok markdown i items
  = (map (episode_record netloc_ok markdown) items, Ok (enclosure_refs i items)).
Proof.
  revert i. induction items as [|item rest IH]; intros i Hall; [done|].
  simpl in Hall. apply andb_prop in Hall as [Hitem Hrest].
  simpl. rewrite (process_item_ok _ Hitem), (IH _ Hrest). simpl.
  by destruct (has_enclosure item).
Qed.

(** Dereferencing the references of the enclosure-bearing items in the
    updated list gives the updated items, in the order of the list. *)
Lemma deref_enclosure_refs (f : value -> value) (pre items : list value) :
  omap (fun i => (pre ++ map f items)%list !! i) (enclosure_refs (length pre) items)
  = map f (List.filter has_enclosure items).
Proof.
  revert pre. induction items as [|item rest IH]; intros pre; [done|].
  assert (Hshift : forall l : list nat,
             omap (fun i => (pre ++ map f (item :: rest))%list !! i) l
             = omap (fun i => ((pre ++ [f item]) ++ map f rest)%list !! i) l).
  { intros l. by rewrite <- app_assoc. }
  assert (Hlen : S (length pre) = length (pre ++ [f item])%list).
  { rewrite length_app. simpl. lia. }
  simpl enclosure_refs. simpl List.filter.
  destruct (has_enclosure item).
  - simpl omap. rewrite list_lookup_middle by done. simpl.
    f_equal. change (f item :: map f rest) with (map f (item :: rest)).
    rewrite Hshift, Hlen. apply IH.
  - rewrite Hshift, Hlen. apply IH.
Qed.

End ExtractorFacts.

(** ** The extractor on a feed *)

(** C1 (amended).  For every parsed feed whose channel holds a list of
    items, each of them a mapping which, when it carries an enclosure, has an
    enclosure URL that parses, a title and a description, the extractor
    returns references to exactly the items that carry an enclosure: one
    per such item, in the order of the feed, and none for an item without
    enclosure.  The records they denote are these items with their derived
    entries. *)
Theorem process_episodes_enclosure_items
  (netloc_ok : string -> bool) (markdown : string -> string)
  (podcast : value) (items : list value) :
  feed_items podcast = Ok (VList items) ->
  forallb (item_ok netloc_ok) items = true ->
  exists podcast',
    process_episodes netloc_ok markdown podcast
    = (podcast', Ok (enclosure_refs 0 items))
    /\ episodes_of podcast' (enclosure_refs 0 items)
       = map (episode_record netloc_ok markdown) (List.filter has_enclosure items).
Proof.
  intros Hitems Hok.
  exists (with_items (map (episode_record netloc_ok markdown) items) podcast).
  split.
  - unfold process_episodes. rewrite Hitems. cbn [iterate].
    by rewrite process_items_ok.
  - unfold episodes_of. rewrite (feed_items_with_items _ _ _ Hitems).
    apply (deref_enclosure_refs _ []).
Qed.

Lemma process_episodes_enclosure_items_witness :
  exists podcast',
    process_episodes no_brackets demo_markdown demo_feed = (podcast', Ok [0%nat])
    /\ episodes_of podcast' [0%nat]
       = [episode_record no_brackets demo_markdown item_one].
Proof.
  exact (process_episodes_enclosure_items no_brackets demo_markdown demo_feed
           [item_one; item_two] eq_refl eq_refl).
Defined.

(** C1, as stated, fails on a feed with an enclosure-bearing item that has
    no title: the extractor raises and returns no episode at all. *)
Lemma process_episodes_untitled_item_raises :
  feed_items untitled_feed = Ok (VList [item_one; item_untitled; item_three])
  /\ List.filter has_enclosure [item_one; item_untitled; item_three]
     = [item_one; item_untitled; item_three]
  /\ snd (process_episodes no_brackets demo_markdown untitled_feed)
     = Raise (KeyError "title").
Proof. by vm_compute. Qed.

(** A channel with a single item is parsed to the mapping of that item, not
    to a list.  The loop then runs over the keys of the mapping, and the
    lookups on the key that holds [enclosure] raise a [TypeError]: the
    hypothesis that the items form a list cannot be dropped. *)
Lemma process_items_over_keys netloc_ok markdown i (d : list (string * value)) :
  is_Some (dict_get d "enclosure") ->
  snd (process_items netloc_ok markdown i (map (fun kv => VStr (fst kv)) d))
  = Raise TypeError.
Proof.
  revert i. induction d as [|[k v] d IH]; intros i [x Hx]; [done|].
  cbn [map fst process_items].
  unfold process_item, mbind, M_bind, bind, item_has, item_get, contains.
  destruct (str_contains "enclosure" k) eqn:Hk; [done|].
  cbn [mret M_ret ret].
  assert (Hd : is_Some (dict_get d "enclosure")).
  { cbn [dict_get] in Hx. destruct (String.eqb_spec "enclosure" k) as [<-|_].
    - by vm_compute in Hk.
    - by exists x. }
  specialize (IH (S i) Hd).
  destruct (process_items netloc_ok markdown (S i) _) as [rest r].
  cbn [snd] in *. by rewrite IH.
Qed.

Lemma process_episodes_single_item netloc_ok markdown podcast d :
  feed_items podcast = Ok (VDict d) ->
  is_Some (dict_get d "enclosure") ->
  process_episodes netloc_ok markdown podcast = (podcast, Raise TypeError).
Proof.
  intros Hitems Henc. unfold process_episodes. rewrite Hitems. cbn [iterate].
  pose proof (process_items_over_keys netloc_ok markdown 0 d Henc) as H.
  destruct (process_items _ _ _ _) as [items' r]. cbn [snd] in H. by rewrite H.
Qed.




(** ** Missing keys during the extraction *)

Section MissingKeys.

Variable netloc_ok : string -> bool.
Variable markdown : string -> string.

(** The loop stops at the first item that raises; the items before it
    have been updated, the items after it have not been looked at. *)
Lemma process_items_stops i (pre : list value) bad bad' e rest :
  forallb (item_ok netloc_ok) pre = true ->
  process_item netloc_ok markdown bad = (bad', Raise e) ->
  process_items netloc_ok markdown i (pre ++ bad :: rest)%list
  = ((map (episode_record netloc_ok markdown) pre ++ bad' :: rest)%list, Raise e).
Proof.
  revert i. induction pre as [|item pre IH]; intros i Hpre Hbad; simpl.
  - by rewrite Hbad.
  - simpl in Hpre. apply andb_prop in Hpre as [Hitem Hpre].
    by rewrite (process_item_ok _ _ _ Hitem), (IH _ Hpre Hbad).
Qed.

(** An enclosure-bearing item without a title raises a [KeyError], after
    its [url] entry was set. *)
Lemma process_item_untitled d e u :
  dict_get d "enclosure" = Some (VDict e) ->
  dict_get e "@url" = Some u ->
  dict_get d "title" = None ->
  process_item netloc_ok markdown (VDict d)
  = (VDict (dict_set d "url" u), Raise (KeyError "title")).
Proof.
  intros E1 E2 E3.
  unfold process_item, mbind, M_bind, bind, item_has, item_get, item_set, lift.
  unfold contains. rewrite E1. rewrite bool_decide_eq_true_2 by eauto.
  unfold getitem at 1. rewrite E1.
  unfold getitem at 1. rewrite E2. cbn [setitem].
  unfold getitem at 1. by rewrite dict_get_set_ne, E3.
Qed.

(** So does one without a description, after its [slug] entry was set. *)
Lemma process_item_undescribed d e u title :
  dict_get d "enclosure" = Some (VDict e) ->
  dict_get e "@url" = Some u ->
  dict_get d "title" = Some (VStr title) ->
  dict_get d "description" = None ->
  process_item netloc_ok markdown (VDict d)
  = (VDict (dict_set (dict_set d "url" u) "slug" (VStr (slugify title))),
     Raise (KeyError "description")).
Proof.
  intros E1 E2 E3 E4.
  unfold process_item, mbind, M_bind, bind, item_has, item_get, item_set, lift.
  unfold contains. rewrite E1. rewrite bool_decide_eq_true_2 by eauto.
  unfold getitem at 1. rewrite E1.
  unfold getitem at 1. rewrite E2. cbn [setitem].
  unfold getitem at 1. rewrite dict_get_set_ne, E3 by done. cbn [py_slugify setitem].
  unfold getitem at 1. by rewrite !dict_get_set_ne, E4.
Qed.

(** A feed without the path to the item list raises the [KeyError] of the
    lookup and is left as it is. *)
Lemma process_episodes_no_item_list podcast k :
  feed_items podcast = Raise (KeyError k) ->
  process_episodes netloc_ok markdown podcast = (podcast, Raise (KeyError k)).
Proof. intros H. unfold process_episodes. by rewrite H. Qed.

Variable network : string -> result response.
Variable xmltodict_parse : string -> result value.
Variable Image_open : string -> result image.
Variable encode : image -> bool -> result string.
Variable resample : image -> Z -> Z -> string.
Variable render_template : string -> string -> context -> result string.

(** C3.  Whenever a lookup raises a [KeyError] during the extraction, be
    it for the channel, the item list or an entry of a single item, the
    [try] of [make_site] yields the empty episode list, and the pipeline
    goes on with it: the remaining stages run on no episode at all, also
    when other items of the feed were well formed. *)
Theorem key_error_gives_empty_episode_list
  (config : config) (w w0 w1 : world) (podcast podcast' : value) (k : string) :
  make_dirs (output_dir config) w = (w0, Ok tt) ->
  download_and_parse_feed network xmltodict_parse (feed_URL config) w0
  = (w1, Ok podcast) ->
  process_episodes netloc_ok markdown podcast = (podcast', Raise (KeyError k)) ->
  try_process_episodes netloc_ok markdown podcast = (podcast', Ok [])
  /\ make_site netloc_ok markdown network xmltodict_parse Image_open encode
       resample render_template config w
     = make_site_rest network Image_open encode resample render_template
         config podcast' [] w1.
Proof.
  intros Hdirs Hfeed Hkey.
  assert (Htry : try_process_episodes netloc_ok markdown podcast = (podcast', Ok [])).
  { unfold try_process_episodes. by rewrite Hkey. }
  split; [done|].
  unfold make_site, mbind, M_bind, bind. rewrite Hdirs, Hfeed, Htry. done.
Qed.

End MissingKeys.

Lemma key_error_gives_empty_episode_list_witness :
  try_process_episodes no_brackets demo_markdown untitled_feed
  = (fst (process_episodes no_brackets demo_markdown untitled_feed), Ok [])
  /\ demo_make_site "https://pod.example/untitled.xml" empty_world
     = make_site_rest demo_network demo_Image_open demo_encode demo_resample
         demo_render (demo_config "https://pod.example/untitled.xml")
         (fst (process_episodes no_brackets demo_markdown untitled_feed)) []
         (mkWorld (fs site_world) ["https://pod.example/untitled.xml"]).
Proof.
  apply (key_error_gives_empty_episode_list no_brackets demo_markdown
           demo_network demo_parse demo_Image_open demo_encode demo_resample
           demo_render (demo_config "https://pod.example/untitled.xml")
           empty_world site_world _ untitled_feed _ "title").
  - vm_compute. reflexivity.
  - vm_compute. reflexivity.
  - vm_compute. reflexivity.
Defined.

(** ** The feed fetch *)

(** C9 (amended).  The feed fetch issues one GET.  When no response arrives
    (the host is unreachable), the exception of the GET is propagated and
    nothing is parsed.  When a response arrives, its body is parsed as the
    feed whatever its status is: the status is not looked at, so a
    non-success status raises no error. *)
Theorem feed_fetch_parses_any_response
  (network : string -> result response) (xmltodict_parse : string -> result value)
  (url : string) (w : world) :
  download_and_parse_feed network xmltodict_parse url w
  = (mkWorld (fs w) (http_log w ++ [url]),
     match network url with
     | Raise e => Raise e
     | Ok r => xmltodict_parse (content r)
     end).
Proof.
  unfold download_and_parse_feed, mbind, M_bind, bind, requests_get, lift.
  by destruct (network url).
Qed.

(** C9, as stated, fails on a response with status 404: its body is parsed
    and returned as the feed. *)
Lemma feed_fetch_parses_404_body :
  demo_network "https://pod.example/gone.xml"
  = Ok (mkResponse 404 "<error>not found</error>")
  /\ snd (download_and_parse_feed demo_network demo_parse
            "https://pod.example/gone.xml" empty_world)
     = Ok (VDict [("error", VStr "not found")]).
Proof. by vm_compute. Qed.

(** ** Strings and paths *)

Lemma append_cons c (a b : string) : String c a ++ b = String c (a ++ b).
Proof. reflexivity. Qed.

Lemma append_nil_r (s : string) : s ++ "" = s.
Proof. induction s as [|c s IH]; [done|]. by rewrite append_cons, IH. Qed.

Lemma append_assoc (a b c : string) : (a ++ b) ++ c = a ++ (b ++ c).
Proof. induction a as [|x a IH]; [done|]. by rewrite !append_cons, IH. Qed.

Lemma append_cancel_l (a b c : string) : a ++ b = a ++ c -> b = c.
Proof.
  induction a as [|x a IH]; [done|]. rewrite !append_cons. intros [= H]. auto.
Qed.

Lemma append_length (a b : string) :
  String.length (a ++ b) = (String.length a + String.length b)%nat.
Proof.
  induction a as [|x a IH]; [done|]. rewrite append_cons. simpl. by rewrite IH.
Qed.

Lemma append_empty (a b : string) : a ++ b = "" -> a = "" /\ b = "".
Proof. destruct a; [done|]. rewrite append_cons. discriminate. Qed.

Lemma str_forall_append p (a b : string) :
  str_forall p (a ++ b) = str_forall p a && str_forall p b.
Proof.
  induction a as [|x a IH]; [done|]. rewrite append_cons. simpl.
  rewrite IH. by rewrite andb_assoc.
Qed.

Lemma ends_with_sep_append (a b : string) :
  b <> "" -> ends_with_sep (a ++ b) = ends_with_sep b.
Proof.
  intros Hb. induction a as [|x a IH]; [done|].
  rewrite append_cons. cbn [ends_with_sep].
  destruct (a ++ b) eqn:E; [|done].
  by apply append_empty in E as [_ ?].
Qed.

Lemma url_safe_no_leading_sep s : url_safe s = true -> starts_with_sep s = false.
Proof.
  destruct s as [|c s]; [done|]. unfold url_safe. simpl.
  intros H. apply andb_prop in H as [Hc _].
  destruct (Ascii.eqb c "/") eqn:E; [|done].
  apply Ascii.eqb_eq in E. subst c. discriminate.
Qed.

Lemma url_safe_no_trailing_sep s :
  url_safe s = true -> s <> "" -> ends_with_sep s = false.
Proof.
  unfold url_safe. induction s as [|c s IH]; [done|]. intros H _.
  simpl in H. apply andb_prop in H as [Hc Hs].
  destruct s as [|c' s'].
  - simpl. destruct (Ascii.eqb c "/") eqn:E; [|done].
    apply Ascii.eqb_eq in E. subst c. discriminate.
  - change (ends_with_sep (String c (String c' s')))
      with (ends_with_sep (String c' s')). by apply IH.
Qed.

Section Paths.

Variable config : config.

Lemma episodes_root_shape :
  episodes_root config <> "" /\ ends_with_sep (episodes_root config) = false.
Proof.
  unfold episodes_root, join_step.
  change (starts_with_sep "episode") with false. cbv iota.
  destruct (String.eqb (output_dir config) "" || ends_with_sep (output_dir config)).
  - split; [by intros [_ ?]%append_empty|]. by rewrite ends_with_sep_append.
  - split; [by intros [_ ?]%append_empty|]. by rewrite !ends_with_sep_append.
Qed.

Lemma episode_dir_shape slug :
  url_safe slug = true ->
  episode_dir config slug = episodes_root config ++ "/" ++ slug.
Proof.
  intros Hs. unfold episode_dir, join. cbn [foldl].
  fold (episodes_root config). destruct episodes_root_shape as [Hne Hend].
  unfold join_step at 1. rewrite (url_safe_no_leading_sep _ Hs), Hend.
  apply String.eqb_neq in Hne. by rewrite Hne.
Qed.

(** The page of an episode lies below its directory: its path is the
    directory followed by a suffix that holds a dot. *)
Lemma episode_page_shape slug :
  url_safe slug = true ->
  exists suffix,
    episode_page config slug = episodes_root config ++ "/" ++ slug ++ suffix
    /\ url_safe suffix = false.
Proof.
  intros Hs. unfold episode_page, join. cbn [foldl].
  rewrite (episode_dir_shape _ Hs). unfold join_step.
  change (starts_with_sep "index.html") with false. cbv iota.
  destruct (String.eqb _ "" || ends_with_sep _).
  - exists "index.html". split; [|done]. by rewrite !append_assoc.
  - exists "/index.html". split; [|done]. by rewrite !append_assoc.
Qed.

Lemma episode_page_not_dir slug slug' :
  url_safe slug = true -> url_safe slug' = true ->
  episode_page config slug <> episode_dir config slug'.
Proof.
  intros Hs Hs' Heq.
  destruct (episode_page_shape _ Hs) as (suffix & Hp & Hsuf).
  rewrite Hp, (episode_dir_shape _ Hs') in Heq.
  do 2 apply append_cancel_l in Heq.
  rewrite <- Heq in Hs'. unfold url_safe in *.
  rewrite str_forall_append in Hs'. apply andb_prop in Hs' as [_ Hs'].
  congruence.
Qed.

End Paths.

(** ** Slugs *)





















(** ** File names: the code on indices against the reading on characters *)

Lemma take_while_ext p q s :
  (forall c, p c = q c) -> take_while p s = take_while q s.
Proof.
  intros H. induction s as [|c s IH]; [done|]. simpl. by rewrite H, IH.
Qed.

Lemma take_while_take_while p q s :
  take_while p (take_while q s) = take_while (fun c => q c && p c) s.
Proof.
  induction s as [|c s IH]; [done|]. simpl.
  destruct (q c); [|done]. simpl. destruct (p c); [|done]. by rewrite IH.
Qed.

Lemma slice_to_take_while p s :
  slice_to (String.length (take_while p s)) s = take_while p s.
Proof.
  induction s as [|c s IH]; [done|]. simpl.
  destruct (p c); [|done]. simpl. by rewrite IH.
Qed.

Lemma slice_from_take_while p s :
  slice_from (String.length (take_while p s)) s = drop_while p s.
Proof.
  induction s as [|c s IH]; [done|]. simpl.
  destruct (p c); [|done]. simpl. by rewrite IH.
Qed.

(** [s.split(c, 1)[0]] is what precedes the first [c]. *)
Lemma split1_fst c s :
  fst (split1 c s) = take_while (fun x => negb (Ascii.eqb x c)) s.
Proof.
  unfold split1. induction s as [|x s IH]; [done|]. simpl.
  destruct (Ascii.eqb x c); [done|]. simpl.
  destruct (find c s) as [i|]; simpl in *; by rewrite <- IH.
Qed.

Lemma take_while_no c s :
  has c s = false -> take_while (fun x => negb (Ascii.eqb x c)) s = s.
Proof.
  unfold has. induction s as [|x s IH]; [done|]. simpl.
  destruct (Ascii.eqb x c); [done|]. simpl.
  destruct (find c s); [done|]. intros _. by rewrite IH.
Qed.

(** *** The scheme *)

Lemma scan_scheme_find s :
  scan_scheme s
  = match find ":" s with
    | Some i =>
        if str_forall is_scheme_char (slice_to i s)
        then Some (slice_to i s, slice_from (S i) s)
        else None
    | None => None
    end.
Proof.
  induction s as [|c s IH]; [done|]. simpl.
  destruct (Ascii.eqb c ":"); [done|].
  rewrite IH. destruct (find ":" s) as [i|]; simpl.
  - destruct (is_scheme_char c); [|done]. simpl.
    by destruct (str_forall is_scheme_char (slice_to i s)).
  - by destruct (is_scheme_char c).
Qed.

Lemma split_scheme_spec url :
  split_scheme url
  = match spec_scheme url with
    | Some (a, rest) => (str_map to_lower a, rest)
    | None => ("", url)
    end.
Proof.
  unfold split_scheme, spec_scheme. rewrite scan_scheme_find.
  destruct (find ":" url) as [[|i]|] eqn:Hf.
  - destruct url as [|c url]; [done|]. simpl in Hf.
    destruct (Ascii.eqb_spec c ":") as [->|_]; [done|].
    by destruct (find ":" url).
  - destruct (is_alpha (first_char url)); [|done]. cbn [andb].
    by destruct (str_forall is_scheme_char (slice_to (S i) url)).
  - by destruct (is_alpha (first_char url)).
Qed.

(** *** The network location *)

Lemma find_from_2 c a b t :
  find_from c 2 (String a (String b t)) = (fun i => S (S i)) <$> find c t.
Proof. unfold find_from. simpl. by destruct (find c t). Qed.

Lemma earliest_delimiter (k : nat) (t : string) :
  foldl (fun delim c =>
           match (fun i => (k + i)%nat) <$> find c t with
           | Some wdelim => Nat.min delim wdelim
           | None => delim
           end)
        (k + String.length t)%nat ["/"; "?"; "#"]%char
  = (k + String.length (take_while (fun c => negb (is_authority_end c)) t))%nat.
Proof.
  revert k. induction t as [|c t IH]; intros k; [done|].
  specialize (IH (S k)). cbn [foldl] in *. unfold is_authority_end in *.
  cbn [find take_while String.length].
  destruct (Ascii.eqb c "/"), (Ascii.eqb c "?"), (Ascii.eqb c "#");
    destruct (find "/" t), (find "?" t), (find "#" t);
    cbn [fmap option_fmap option_map negb orb String.length] in *; lia.
Qed.

Lemma splitnetloc_spec t :
  splitnetloc (String "/" (String "/" t)) 2
  = (take_while (fun c => negb (is_authority_end c)) t,
     drop_while (fun c => negb (is_authority_end c)) t).
Proof.
  unfold splitnetloc.
  assert (Hd : foldl (fun delim c =>
                        match find_from c 2 (String "/" (String "/" t)) with
                        | Some wdelim => Nat.min delim wdelim
                        | None => delim
                        end)
                 (String.length (String "/" (String "/" t))) ["/"; "?"; "#"]%char
               = (2 + String.length
                        (take_while (fun c => negb (is_authority_end c)) t))%nat).
  { rewrite <- earliest_delimiter. cbn [foldl]. by rewrite !find_from_2. }
  rewrite Hd. cbn [Nat.add slice_to slice_from].
  by rewrite slice_to_take_while, slice_from_take_while.
Qed.

Lemma netloc_split_spec (url : string) :
  snd (if String.eqb (slice_to 2 url) "//" then splitnetloc url 2 else ("", url))
  = without_authority url.
Proof.
  destruct url as [|a [|b t]]; try done.
  - cbn. by destruct (Ascii.eqb a "/").
  - unfold without_authority. cbn [slice_to String.eqb].
    destruct (Ascii.eqb_spec a "/") as [->|Ha]; [|done].
    destruct (Ascii.eqb_spec b "/") as [->|Hb]; [|done].
    cbn [andb]. by rewrite splitnetloc_spec.
Qed.

(** *** The last segment and its parameters *)

Lemma has_rfind c s :
  has c s = match rfind c s with Some _ => true | None => false end.
Proof.
  unfold has. induction s as [|x s IH]; [done|]. simpl.
  destruct (Ascii.eqb x c).
  - by destruct (rfind c s).
  - destruct (find c s), (rfind c s); done.
Qed.

Lemma has_cons c x s : has c (String x s) = Ascii.eqb x c || has c s.
Proof.
  unfold has. simpl. destruct (Ascii.eqb x c); [done|]. by destruct (find c s).
Qed.

Lemma basename_cons c p :
  basename (String c p)
  = if has "/" p then basename p
    else if Ascii.eqb c "/" then p else String c p.
Proof.
  rewrite has_rfind. unfold basename. simpl.
  destruct (rfind "/" p); [done|]. by destruct (Ascii.eqb c "/").
Qed.

Lemma basename_last_segment p : basename p = last_segment p.
Proof.
  induction p as [|c p IH]; [done|]. rewrite basename_cons. simpl.
  by rewrite IH.
Qed.

Lemma has_take_while c p s :
  has c s = false -> has c (take_while p s) = false.
Proof.
  induction s as [|x s IH]; [done|]. rewrite has_cons.
  intros [Hx Hs]%orb_false_elim. simpl. destruct (p x); [|done].
  by rewrite has_cons, Hx, IH.
Qed.

Lemma has_last_segment c p : has c p = false -> has c (last_segment p) = false.
Proof.
  induction p as [|x p IH]; [done|]. rewrite has_cons.
  intros [Hx Hp]%orb_false_elim. simpl.
  destruct (has "/" p); [auto|].
  destruct (Ascii.eqb x "/"); [done|]. by rewrite has_cons, Hx, Hp.
Qed.

Lemma has_params_cut p : has "/" (params_cut p) = has "/" p.
Proof.
  induction p as [|c p IH]; [done|]. cbn [params_cut].
  destruct (has "/" p) eqn:Hp.
  - by rewrite !has_cons, IH, Hp.
  - destruct (Ascii.eqb c "/") eqn:Hc.
    + by rewrite !has_cons, Hc.
    + cbn [take_while]. destruct (negb (Ascii.eqb c ";")).
      * by rewrite !has_cons, Hc, Hp, (has_take_while _ _ _ Hp).
      * by rewrite has_cons, Hc, Hp.
Qed.

(** [_splitparams] cuts the path where [params_cut] does. *)
Lemma splitparams_fst p : fst (splitparams p) = params_cut p.
Proof.
  induction p as [|c p IH]; [done|].
  unfold splitparams in *. cbn [rfind params_cut].
  rewrite has_rfind. destruct (rfind "/" p) as [j|] eqn:Hj.
  - rewrite <- IH. unfold find_from. cbn [slice_from].
    by destruct (find ";" (slice_from j p)).
  - destruct (Ascii.eqb c "/") eqn:Hc.
    + unfold find_from. cbn [slice_from find].
      assert (Ascii.eqb c ";" = false) as ->.
      { apply Ascii.eqb_eq in Hc. by subst c. }
      rewrite <- split1_fst. unfold split1.
      by destruct (find ";" p).
    + rewrite <- split1_fst. unfold split1.
      by destruct (find ";" (String c p)).
Qed.

Lemma basename_params_cut p :
  basename (params_cut p)
  = take_while (fun x => negb (Ascii.eqb x ";")) (last_segment p).
Proof.
  induction p as [|c p IH]; [done|]. cbn [params_cut last_segment].
  destruct (has "/" p) eqn:Hp.
  - by rewrite basename_cons, has_params_cut, Hp.
  - destruct (Ascii.eqb c "/") eqn:Hc.
    + by rewrite basename_cons, (has_take_while _ _ _ Hp), Hc.
    + rewrite basename_last_segment.
      set (q := take_while _ (String c p)).
      assert (Hq : has "/" q = false).
      { apply has_take_while. by rewrite has_cons, Hc, Hp. }
      clearbody q. destruct q as [|x q]; [done|]. simpl.
      rewrite has_cons in Hq. apply orb_false_elim in Hq as [Hx Hq].
      by rewrite Hq, Hx.
Qed.

(** The path that [urlsplit] returns is the path of the cleaned URL, and
    its scheme is the lower-cased scheme. *)
Lemma urlsplit_path netloc_ok url sch net p q f :
  urlsplit netloc_ok url = Ok (sch, net, p, q, f) ->
  p = spec_path (clean_url url)
  /\ sch = match spec_scheme (clean_url url) with
           | Some (a, _) => str_map to_lower a
           | None => ""
           end.
Proof.
  unfold urlsplit. fold (clean_url url). set (u := clean_url url).
  rewrite split_scheme_spec. unfold spec_path, without_scheme.
  destruct (spec_scheme u) as [[a rest]|].
  - pose proof (netloc_split_spec rest) as Hn.
    destruct (if String.eqb (slice_to 2 rest) "//" then _ else _) as [net' r2].
    cbn [snd] in Hn. subst r2.
    destruct (negb (String.eqb net' "") && negb (netloc_ok net')); [done|].
    pose proof (split1_fst "#" (without_authority rest)) as H1.
    destruct (split1 "#" (without_authority rest)) as [r3 f'].
    pose proof (split1_fst "?" r3) as H2.
    destruct (split1 "?" r3) as [r4 q']. cbn [fst] in *.
    intros [= <- <- <- <- <-]. split; [|done].
    rewrite H2, H1, take_while_take_while. apply take_while_ext.
    intros c. unfold is_path_end.
    by destruct (Ascii.eqb c "#"), (Ascii.eqb c "?").
  - pose proof (netloc_split_spec u) as Hn.
    destruct (if String.eqb (slice_to 2 u) "//" then _ else _) as [net' r2].
    cbn [snd] in Hn. subst r2.
    destruct (negb (String.eqb net' "") && negb (netloc_ok net')); [done|].
    pose proof (split1_fst "#" (without_authority u)) as H1.
    destruct (split1 "#" (without_authority u)) as [r3 f'].
    pose proof (split1_fst "?" r3) as H2.
    destruct (split1 "?" r3) as [r4 q']. cbn [fst] in *.
    intros [= <- <- <- <- <-]. split; [|done].
    rewrite H2, H1, take_while_take_while. apply take_while_ext.
    intros c. unfold is_path_end.
    by destruct (Ascii.eqb c "#"), (Ascii.eqb c "?").
Qed.

Lemma urlparse_file_name netloc_ok url r :
  urlparse netloc_ok url = Ok r ->
  basename (path r) = without_params (scheme r) (spec_file_name (clean_url url)).
Proof.
  unfold urlparse.
  destruct (urlsplit netloc_ok url) as [[[[[sch net] p] q] f]|] eqn:Hs; [|done].
  apply urlsplit_path in Hs as [-> _].
  unfold without_params, spec_file_name.
  set (p := spec_path (clean_url url)).
  destruct (str_in sch uses_params) eqn:Hu; cbn [andb].
  - destruct (has ";" p) eqn:Hp.
    + pose proof (splitparams_fst p) as Hc.
      destruct (splitparams p) as [p' prm]. cbn [fst] in Hc. subst p'.
      intros [= <-]. cbn [path scheme]. rewrite Hu. apply basename_params_cut.
    + intros [= <-]. cbn [path scheme]. rewrite Hu, basename_last_segment.
      symmetry. apply take_while_no. by apply has_last_segment.
  - intros [= <-]. cbn [path scheme]. rewrite Hu. apply basename_last_segment.
Qed.

(** C6 (amended).  For every episode whose audio URL the URL parser
    accepts, the derived file name is the final path segment of the URL,
    query string and fragment excluded, without the parameters that follow
    the first [;] of that segment when the scheme is one that takes
    parameters ([http], [https], [ftp], no scheme, ...); the URL is read
    after its leading control characters and spaces and all its tabs,
    carriage returns and line feeds were dropped.  In particular
    [https://cdn.example/ep1.mp3?token=abc] yields [ep1.mp3]. *)
Theorem file_name_is_last_path_segment
  (netloc_ok : string -> bool) (markdown : string -> string) :
  (forall url r,
     urlparse netloc_ok url = Ok r ->
     url_file_name netloc_ok url
     = Ok (without_params (scheme r) (spec_file_name (clean_url url))))
  /\ (forall item url title description,
        item_fields item = Some (url, title, description) ->
        item_ok netloc_ok item = true ->
        exists r,
          urlparse netloc_ok url = Ok r
          /\ getitem (fst (process_item netloc_ok markdown item)) "file_name"
             = Ok (VStr (without_params (scheme r)
                           (spec_file_name (clean_url url)))))
  /\ (netloc_ok "cdn.example" = true ->
      url_file_name netloc_ok "https://cdn.example/ep1.mp3?token=abc"
      = Ok "ep1.mp3").
Proof.
  split; [|split].
  - intros url r Hr. unfold url_file_name. rewrite Hr.
    by rewrite (urlparse_file_name _ _ _ Hr).
  - intros item url title description Hf Hok.
    rewrite (process_item_ok _ markdown _ Hok). cbn [fst].
    destruct item as [| |d|]; try discriminate.
    assert (He : has_enclosure (VDict d) = true).
    { unfold item_fields in Hf. simpl.
      destruct (dict_get d "enclosure"); [|discriminate].
      apply bool_decide_eq_true_2. eauto. }
    unfold episode_record. rewrite Hf.
    unfold item_ok in Hok. rewrite He, Hf in Hok. cbn [negb orb] in Hok.
    destruct (urlparse netloc_ok url) as [r|] eqn:Hr; [|discriminate].
    exists r. split; [done|].
    unfold getitem. rewrite dict_get_set_eq.
    by rewrite (urlparse_file_name _ _ _ Hr).
  - intros Hnet. unfold url_file_name, urlparse, urlsplit.
    change (lstrip is_c0_control_or_space "https://cdn.example/ep1.mp3?token=abc")
      with "https://cdn.example/ep1.mp3?token=abc".
    change (remove_chars is_unsafe_url_byte "https://cdn.example/ep1.mp3?token=abc")
      with "https://cdn.example/ep1.mp3?token=abc".
    change (split_scheme "https://cdn.example/ep1.mp3?token=abc")
      with ("https", "//cdn.example/ep1.mp3?token=abc").
    cbv iota beta.
    change (String.eqb (slice_to 2 "//cdn.example/ep1.mp3?token=abc") "//") with true.
    change (splitnetloc "//cdn.example/ep1.mp3?token=abc" 2)
      with ("cdn.example", "/ep1.mp3?token=abc").
    cbv iota beta. rewrite Hnet. reflexivity.
Qed.

Lemma file_name_is_last_path_segment_witness :
  url_file_name no_brackets "https://cdn.example/ep1.mp3?token=abc" = Ok "ep1.mp3"
  /\ url_file_name no_brackets "https://cdn.example/a/b.mp3;x=1?y#z"
     = Ok (without_params "https" (spec_file_name "https://cdn.example/a/b.mp3;x=1?y#z")).
Proof.
  destruct (file_name_is_last_path_segment no_brackets demo_markdown)
    as (Hname & _ & Hexample).
  split.
  - apply Hexample. reflexivity.
  - exact (Hname "https://cdn.example/a/b.mp3;x=1?y#z"
             (mkParseResult "https" "cdn.example" "/a/b.mp3" "x=1" "y" "z") eq_refl).
Defined.

(** C6, as stated, fails on a URL whose last path segment holds a
    semicolon: the file name stops there, although what follows is neither
    query string nor fragment. *)
Lemma file_name_drops_parameters :
  url_file_name no_brackets "https://cdn.example/ep1;v=2.mp3" = Ok "ep1"
  /\ spec_file_name "https://cdn.example/ep1;v=2.mp3" = "ep1;v=2.mp3".
Proof. by vm_compute. Qed.

(** ** The file system *)

(** *** Nodes *)

Lemma node_at_put_ne k k' n f : k' <> k -> node_at (put k n f) k' = node_at f k'.
Proof.
  intros H. destruct k' as [|a k']; [done|].
  cbn [node_at put nodes]. by rewrite lookup_insert_ne.
Qed.

Lemma node_at_put_eq k n f : k <> [] -> node_at (put k n f) k = Some n.
Proof.
  intros H. destruct k as [|a k]; [done|].
  cbn [node_at put nodes]. by rewrite lookup_insert_eq.
Qed.

Lemma node_at_root f : node_at f [] = Some Dir.
Proof. done. Qed.

Lemma not_dir_not_root f k : node_at f k <> Some Dir -> k <> [].
Proof. by intros H ->. Qed.

Lemma put_put k n n' f : put k n (put k n' f) = put k n f.
Proof. unfold put. cbn [nodes cwd]. by rewrite insert_insert_eq. Qed.

Lemma unlink_put k n f : node_at f k = None -> unlink k (put k n f) = f.
Proof.
  intros H. destruct k as [|a k]; [done|]. destruct f as [m c].
  unfold unlink, put. cbn [nodes cwd node_at] in *. by rewrite delete_insert_id.
Qed.

Lemma cwd_put k n f : cwd (put k n f) = cwd f.
Proof. done. Qed.

(** *** How a file system changes *)

Lemma adds_dirs_refl f : adds_dirs f f.
Proof. split; [done|]. by left. Qed.

Lemma adds_dirs_trans f1 f2 f3 : adds_dirs f1 f2 -> adds_dirs f2 f3 -> adds_dirs f1 f3.
Proof.
  intros [Hc1 H1] [Hc2 H2]. split; [congruence|]. intros k.
  destruct (H1 k) as [E1|[E1 D1]], (H2 k) as [E2|[E2 D2]].
  - left. congruence.
  - right. split; congruence.
  - right. split; congruence.
  - congruence.
Qed.

Lemma adds_dirs_put k f : node_at f k = None -> adds_dirs f (put k Dir f).
Proof.
  intros H. split; [done|]. intros k'.
  destruct (decide (k' = k)) as [->|Hne].
  - right. split; [done|]. apply node_at_put_eq. by intros ->.
  - left. by apply node_at_put_ne.
Qed.

Lemma adds_dirs_extends f f' : adds_dirs f f' -> extends f f'.
Proof.
  intros [Hc H]. split; [done|]. intros k [n Hn].
  destruct (H k) as [E|[E _]]; congruence.
Qed.

Lemma extends_refl f : extends f f.
Proof. by split. Qed.

Lemma extends_trans f1 f2 f3 : extends f1 f2 -> extends f2 f3 -> extends f1 f3.
Proof.
  intros [Hc1 H1] [Hc2 H2]. split; [congruence|]. intros k Hk.
  rewrite H2; [by apply H1|]. by rewrite H1.
Qed.

Lemma extends_put k n f : node_at f k = None -> extends f (put k n f).
Proof.
  intros H. split; [done|]. intros k' [m Hm].
  apply node_at_put_ne. intros ->. congruence.
Qed.

Lemma extends_grows f f' : extends f f' -> grows f f'.
Proof.
  intros [Hc H]. split; [done|]. split.
  - intros k Hk. rewrite H; [done|]. by rewrite Hk.
  - intros k c Hk. exists c. rewrite H; [done|]. by rewrite Hk.
Qed.

Lemma grows_refl f : grows f f.
Proof. split; [done|]. split; [done|]. intros k c H. by exists c. Qed.

Lemma grows_trans f1 f2 f3 : grows f1 f2 -> grows f2 f3 -> grows f1 f3.
Proof.
  intros (Hc1 & Hd1 & Hf1) (Hc2 & Hd2 & Hf2). split; [congruence|]. split.
  - intros k Hk. auto.
  - intros k c Hk. destruct (Hf1 k c Hk) as [c' Hc']. eauto.
Qed.

Lemma grows_put_file k data f :
  node_at f k <> Some Dir -> grows f (put k (File data) f).
Proof.
  intros H. pose proof (not_dir_not_root _ _ H) as Hk. split; [done|]. split.
  - intros k' Hd. rewrite node_at_put_ne; [done|]. intros ->. congruence.
  - intros k' c Hf. destruct (decide (k' = k)) as [->|Hne].
    + exists data. by apply node_at_put_eq.
    + exists c. by rewrite node_at_put_ne.
Qed.

Lemma adds_dirs_grows f f' : adds_dirs f f' -> grows f f'.
Proof. intros H. by apply extends_grows, adds_dirs_extends. Qed.

(** *** Path resolution *)

Lemma walk_step_raise f e name : walk_step f (Raise e) name = Raise e.
Proof. done. Qed.

Lemma walk_raise f e names : fold_left (walk_step f) names (Raise e) = Raise e.
Proof. induction names as [|name names IH]; [done|]. apply IH. Qed.

Lemma walk_step_empty f r : walk_step f r "" = r.
Proof. by destruct r. Qed.

Lemma key_step_empty k : key_step k "" = k.
Proof. done. Qed.

(** A step that succeeds went through a directory, and leads to the key
    that the names give. *)
Lemma walk_step_ok f k name k' :
  walk_step f (Ok k) name = Ok k' ->
  k' = key_step k name /\ (name = "" \/ node_at f k = Some Dir).
Proof.
  unfold walk_step, key_step.
  destruct (String.eqb_spec name ""); [intros [= <-]; split; [done|by left]|].
  destruct (node_at f k) as [[c|]|]; try discriminate.
  destruct (String.eqb name "."); [intros [= <-]; split; [done|by right]|].
  destruct (String.eqb name ".."); [intros [= <-]; split; [done|by right]|].
  destruct (255 <? String.length name)%nat; [discriminate|].
  intros [= <-]. split; [done|by right].
Qed.

Lemma walk_step_grows f f' k name k' :
  grows f f' -> walk_step f (Ok k) name = Ok k' -> walk_step f' (Ok k) name = Ok k'.
Proof.
  intros (_ & Hd & _) H.
  destruct (walk_step_ok _ _ _ _ H) as [_ [->|Hdir]]; [done|].
  revert H. unfold walk_step. by rewrite Hdir, (Hd _ Hdir).
Qed.

Lemma walk_grows f f' names k k' :
  grows f f' ->
  fold_left (walk_step f) names (Ok k) = Ok k' ->
  fold_left (walk_step f') names (Ok k) = Ok k'.
Proof.
  intros Hg. revert k. induction names as [|name names IH]; intros k; [done|].
  cbn [fold_left]. destruct (walk_step f (Ok k) name) as [k1|e] eqn:H1.
  - rewrite (walk_step_grows _ _ _ _ _ Hg H1). apply IH.
  - by rewrite walk_raise.
Qed.

Lemma walk_key f names k k' :
  fold_left (walk_step f) names (Ok k) = Ok k' -> k' = fold_left key_step names k.
Proof.
  revert k. induction names as [|name names IH]; intros k; cbn [fold_left].
  { by intros [= <-]. }
  destruct (walk_step f (Ok k) name) as [k1|e] eqn:H1.
  - destruct (walk_step_ok _ _ _ _ H1) as [-> _]. apply IH.
  - by rewrite walk_raise.
Qed.

Lemma locate_grows f f' p k : grows f f' -> locate f p = Ok k -> locate f' p = Ok k.
Proof.
  intros Hg. unfold locate. destruct Hg as (Hc & Hg). rewrite Hc.
  apply walk_grows. by split.
Qed.

Lemma locate_key f p k : locate f p = Ok k -> k = path_key (cwd f) p.
Proof. apply walk_key. Qed.

Lemma resolve_inv f p k slash :
  resolve f p = Ok (k, slash) ->
  path_ok p = true /\ locate f p = Ok k /\ slash = ends_with_sep p.
Proof.
  unfold resolve, path_ok.
  destruct (String.eqb p ""); [discriminate|].
  destruct (has Ascii.zero p); [discriminate|].
  destruct (String.length p <? 4096)%nat; [|discriminate].
  destruct (locate f p); [|discriminate]. by intros [= <- <-].
Qed.

Lemma resolve_of_locate f p k :
  path_ok p = true -> locate f p = Ok k -> resolve f p = Ok (k, ends_with_sep p).
Proof.
  unfold resolve, path_ok. intros Hok ->.
  destruct (String.eqb p ""); [discriminate|].
  destruct (has Ascii.zero p); [discriminate|].
  by destruct (String.length p <? 4096)%nat.
Qed.

Lemma resolve_grows f f' p r : grows f f' -> resolve f p = Ok r -> resolve f' p = Ok r.
Proof.
  intros Hg H. destruct r as [k slash].
  apply resolve_inv in H as (Hok & Hloc & ->).
  apply resolve_of_locate; [done|]. by eapply locate_grows.
Qed.

Lemma resolve_key f p k slash :
  resolve f p = Ok (k, slash) -> k = path_key (cwd f) p.
Proof. intros (_ & H & _)%resolve_inv. by apply locate_key. Qed.

(** *** [os.path.exists] *)

Lemma fs_exists_true f p :
  fs_exists f p = true ->
  exists k slash n, resolve f p = Ok (k, slash) /\ node_at f k = Some n
                    /\ (slash = true -> n = Dir).
Proof.
  unfold fs_exists, stat.
  destruct (resolve f p) as [[k slash]|]; [|discriminate].
  destruct (node_at f k) as [[c|]|] eqn:Hn; [| |discriminate].
  - destruct slash; [discriminate|]. intros _. by exists k, false, (File c).
  - intros _. by exists k, slash, Dir.
Qed.

Lemma fs_exists_node f p k n :
  resolve f p = Ok (k, false) -> node_at f k = Some n -> fs_exists f p = true.
Proof. unfold fs_exists, stat. intros -> ->. by destruct n. Qed.

Lemma fs_exists_dir f p k slash :
  resolve f p = Ok (k, slash) -> node_at f k = Some Dir -> fs_exists f p = true.
Proof. unfold fs_exists, stat. by intros -> ->. Qed.

Lemma fs_exists_false f p k :
  fs_exists f p = false -> resolve f p = Ok (k, false) -> node_at f k = None.
Proof.
  unfold fs_exists, stat. intros H Hr. rewrite Hr in H.
  by destruct (node_at f k) as [[c|]|].
Qed.

Lemma fs_exists_grows f f' p :
  grows f f' -> fs_exists f p = true -> fs_exists f' p = true.
Proof.
  intros Hg (k & slash & n & Hr & Hn & Hs)%fs_exists_true.
  pose proof (resolve_grows _ _ _ _ Hg Hr) as Hr'.
  destruct Hg as (_ & Hd & Hf). destruct n as [c|].
  - destruct slash; [by specialize (Hs eq_refl)|].
    destruct (Hf _ _ Hn) as [c' Hc']. by eapply fs_exists_node.
  - eapply fs_exists_dir; eauto.
Qed.

Lemma stat_file f p k data :
  resolve f p = Ok (k, false) -> node_at f k = Some (File data) ->
  stat f p = Ok (File data).
Proof. unfold stat. by intros -> ->. Qed.

(** *** Writing a file *)

Lemma open_write_ok p k w :
  resolve (fs w) p = Ok (k, false) ->
  node_at (fs w) k <> Some Dir ->
  open_write p w = (mkWorld (put k (File "") (fs w)) (http_log w), Ok k).
Proof.
  intros Hr Hn. unfold open_write. rewrite Hr.
  by destruct (node_at (fs w) k) as [[c|]|].
Qed.

Lemma open_write_inv p w w' k :
  open_write p w = (w', Ok k) ->
  resolve (fs w) p = Ok (k, false)
  /\ node_at (fs w) k <> Some Dir
  /\ w' = mkWorld (put k (File "") (fs w)) (http_log w).
Proof.
  unfold open_write.
  destruct (resolve (fs w) p) as [[k0 slash]|]; [|discriminate].
  destruct (node_at (fs w) k0) as [[c|]|] eqn:Hn; try discriminate;
    destruct slash; try discriminate; intros [= <- <-]; by rewrite Hn.
Qed.

Lemma open_write_raise p w w' e : open_write p w = (w', Raise e) -> w' = w.
Proof.
  unfold open_write.
  destruct (resolve (fs w) p) as [[k0 slash]|]; [|by intros [= <- _]].
  destruct (node_at (fs w) k0) as [[c|]|]; destruct slash;
    try discriminate; by intros [= <- _].
Qed.

Lemma write_file_ok p data k w :
  resolve (fs w) p = Ok (k, false) ->
  node_at (fs w) k <> Some Dir ->
  write_file p data w = (mkWorld (put k (File data) (fs w)) (http_log w), Ok tt).
Proof.
  intros Hr Hn. unfold write_file, mbind, M_bind, bind.
  rewrite (open_write_ok _ _ _ Hr Hn). unfold write_at. cbn [fs http_log].
  by rewrite put_put.
Qed.

Lemma write_file_inv p data w w' :
  write_file p data w = (w', Ok tt) ->
  exists k, resolve (fs w) p = Ok (k, false)
            /\ node_at (fs w) k <> Some Dir
            /\ w' = mkWorld (put k (File data) (fs w)) (http_log w).
Proof.
  unfold write_file, mbind, M_bind, bind.
  destruct (open_write p w) as [w1 [k|e]] eqn:Ho; [|discriminate].
  apply open_write_inv in Ho as (Hr & Hn & ->).
  unfold write_at. cbn [fs http_log]. rewrite put_put. intros [= <-]. eauto.
Qed.

Lemma write_file_raise p data w w' e : write_file p data w = (w', Raise e) -> w' = w.
Proof.
  unfold write_file, mbind, M_bind, bind.
  destruct (open_write p w) as [w1 [k|e']] eqn:Ho; [discriminate|].
  apply open_write_raise in Ho as ->. by intros [= <- _].
Qed.

(** What a written path denotes afterwards. *)
Lemma stat_written f p k data :
  resolve f p = Ok (k, false) -> node_at f k <> Some Dir ->
  stat (put k (File data) f) p = Ok (File data).
Proof.
  intros Hr Hn. apply (stat_file _ _ k).
  - eapply resolve_grows; [|done]. by apply grows_put_file.
  - apply node_at_put_eq. by eapply not_dir_not_root.
Qed.

Lemma write_file_grows p data w :
  let w' := fst (write_file p data w) in
  grows (fs w) (fs w') /\ http_log w' = http_log w.
Proof.
  destruct (write_file p data w) as [w' [[]|e]] eqn:H; cbn [fst].
  - apply write_file_inv in H as (k & _ & Hn & ->). cbn [fs http_log].
    split; [|done]. by apply grows_put_file.
  - apply write_file_raise in H as ->. split; [apply grows_refl|done].
Qed.

(** *** Making directories *)

Lemma mkdir_inv p w w' :
  mkdir p w = (w', Ok tt) ->
  exists k slash, resolve (fs w) p = Ok (k, slash)
                  /\ node_at (fs w) k = None
                  /\ w' = mkWorld (put k Dir (fs w)) (http_log w).
Proof.
  unfold mkdir. destruct (resolve (fs w) p) as [[k slash]|]; [|discriminate].
  destruct (node_at (fs w) k) eqn:Hn; [discriminate|]. intros [= <-]. eauto.
Qed.

Lemma mkdir_raise p w w' e : mkdir p w = (w', Raise e) -> w' = w.
Proof.
  unfold mkdir. destruct (resolve (fs w) p) as [[k slash]|]; [|by intros [= <- _]].
  destruct (node_at (fs w) k); [by intros [= <- _]|discriminate].
Qed.

Lemma mkdir_ok p k slash w :
  resolve (fs w) p = Ok (k, slash) -> node_at (fs w) k = None ->
  mkdir p w = (mkWorld (put k Dir (fs w)) (http_log w), Ok tt).
Proof. intros Hr Hn. unfold mkdir. by rewrite Hr, Hn. Qed.

Lemma mkdir_adds p w :
  let w' := fst (mkdir p w) in
  adds_dirs (fs w) (fs w') /\ http_log w' = http_log w.
Proof.
  destruct (mkdir p w) as [w' [[]|e]] eqn:H; cbn [fst].
  - apply mkdir_inv in H as (k & slash & _ & Hn & ->). cbn [fs http_log].
    split; [|done]. by apply adds_dirs_put.
  - apply mkdir_raise in H as ->. split; [apply adds_dirs_refl|done].
Qed.


Lemma stat_dir_exists f p : stat f p = Ok Dir -> fs_exists f p = true.
Proof. unfold fs_exists. by intros ->. Qed.

Lemma makedirs_fuel_adds fuel name w :
  let w' := fst (makedirs_fuel fuel name w) in
  adds_dirs (fs w) (fs w') /\ http_log w' = http_log w.
Proof.
  revert name w. induction fuel as [|fuel IH]; intros name w.
  { split; [apply adds_dirs_refl|done]. }
  cbn [makedirs_fuel].
  destruct (py_split name) as [head tail].
  destruct (if String.eqb tail "" then py_split head else (head, tail))
    as [head' tail'].
  unfold mbind, M_bind, bind, path_exists.
  destruct (negb (String.eqb head' "") && negb (String.eqb tail' "")
            && negb (fs_exists (fs w) head')); [|apply mkdir_adds].
  unfold except_file_exists.
  specialize (IH head' w).
  destruct (makedirs_fuel fuel head' w) as [w1 r]. cbn [fst] in IH.
  destruct IH as [Ha Hl].
  assert (Hnext : let w' := fst ((if String.eqb tail' "." then mret tt
                                  else mkdir name) w1) in
                  adds_dirs (fs w) (fs w') /\ http_log w' = http_log w).
  { destruct (String.eqb tail' ".").
    - by split.
    - destruct (mkdir_adds name w1) as [Ha' Hl']. split.
      + by eapply adds_dirs_trans.
      + cbv zeta in *. congruence. }
  destruct r as [[]|e]; [exact Hnext|].
  destruct e; try (by split); exact Hnext.
Qed.

Lemma makedirs_adds name w :
  let w' := fst (makedirs name w) in
  adds_dirs (fs w) (fs w') /\ http_log w' = http_log w.
Proof. apply makedirs_fuel_adds. Qed.

Lemma makedirs_of_mkdir name head tail w :
  py_split name = (head, tail) ->
  tail <> "" ->
  head = "" \/ fs_exists (fs w) head = true ->
  makedirs name w = mkdir name w.
Proof.
  intros Hsplit Htail Hhead. unfold makedirs. cbn [makedirs_fuel].
  rewrite Hsplit. apply String.eqb_neq in Htail. rewrite Htail.
  unfold mbind, M_bind, bind, path_exists.
  destruct Hhead as [-> | ->]; [done|]. cbn [negb]. by rewrite andb_false_r.
Qed.


(** *** Strings of paths *)

Lemma has_append c (a b : string) : has c (a ++ b) = has c a || has c b.
Proof.
  induction a as [|x a IH]; [done|]. rewrite append_cons, !has_cons, IH.
  by rewrite orb_assoc.
Qed.

Lemma no_sep_no_leading name : has "/" name = false -> starts_with_sep name = false.
Proof.
  destruct name as [|c name]; [done|]. rewrite has_cons.
  by intros [H _]%orb_false_elim.
Qed.

Lemma no_sep_no_trailing name : has "/" name = false -> ends_with_sep name = false.
Proof.
  induction name as [|c name IH]; [done|]. rewrite has_cons.
  intros [Hc Hn]%orb_false_elim. destruct name as [|c' name']; [done|].
  change (ends_with_sep (String c (String c' name')))
    with (ends_with_sep (String c' name')). by apply IH.
Qed.

Lemma starts_with_sep_append (a b : string) :
  a <> "" -> starts_with_sep (a ++ b) = starts_with_sep a.
Proof. by destruct a. Qed.

Lemma ends_with_sep_inv d : ends_with_sep d = true -> exists d', d = d' ++ "/".
Proof.
  induction d as [|x d IH]; [done|]. destruct d as [|y d].
  - cbn [ends_with_sep]. intros ->%Ascii.eqb_eq. by exists "".
  - change (ends_with_sep (String x (String y d)))
      with (ends_with_sep (String y d)).
    intros [d' Hd']%IH. exists (String x d'). by rewrite append_cons, <- Hd'.
Qed.

Lemma split_on_nonempty c s : split_on c s <> [].
Proof.
  destruct s as [|x s]; [done|]. cbn [split_on].
  destruct (Ascii.eqb x c); [done|]. by destruct (split_on c s).
Qed.

Lemma split_on_append c (a b : string) :
  split_on c (a ++ String c b) = (split_on c a ++ split_on c b)%list.
Proof.
  induction a as [|x a IH].
  - change ("" ++ String c b) with (String c b). cbn [split_on].
    by rewrite Ascii.eqb_refl.
  - rewrite append_cons. cbn [split_on]. rewrite IH.
    destruct (Ascii.eqb x c); [done|].
    destruct (split_on c a) eqn:E; [by apply split_on_nonempty in E|done].
Qed.

Lemma split_on_no_sep c s : has c s = false -> split_on c s = [s].
Proof.
  induction s as [|x s IH]; [done|]. rewrite has_cons.
  intros [Hx Hs]%orb_false_elim. cbn [split_on]. by rewrite Hx, (IH Hs).
Qed.

Lemma starts_with_sep_join d name :
  has "/" name = false -> starts_with_sep (join_step d name) = starts_with_sep d.
Proof.
  intros Hn. unfold join_step. rewrite (no_sep_no_leading _ Hn).
  destruct (String.eqb_spec d "") as [->|Hd]; cbn [orb].
  - change ("" ++ name) with name. by apply no_sep_no_leading.
  - destruct (ends_with_sep d); by apply starts_with_sep_append.
Qed.

(** The names of a joined path are those of the directory, then the name
    joined to it. *)
Lemma fold_join {A : Type} (step : A -> string -> A) (init : A) d name :
  (forall a, step a "" = a) ->
  has "/" name = false ->
  fold_left step (split_on "/" (join_step d name)) init
  = step (fold_left step (split_on "/" d) init) name.
Proof.
  intros Hskip Hn. unfold join_step. rewrite (no_sep_no_leading _ Hn).
  destruct (String.eqb_spec d "") as [->|Hd]; cbn [orb].
  - change ("" ++ name) with name. rewrite (split_on_no_sep _ _ Hn).
    cbn [split_on fold_left]. by rewrite Hskip.
  - destruct (ends_with_sep d) eqn:He.
    + destruct (ends_with_sep_inv _ He) as [d' ->]. rewrite append_assoc.
      change ("/" ++ name) with (String "/" name).
      change (d' ++ "/") with (d' ++ String "/" "").
      rewrite !split_on_append, !fold_left_app, (split_on_no_sep _ _ Hn).
      cbn [split_on fold_left]. by rewrite Hskip.
    + change ("/" ++ name) with (String "/" name).
      by rewrite split_on_append, fold_left_app, (split_on_no_sep _ _ Hn).
Qed.

Lemma locate_join f d name :
  has "/" name = false ->
  locate f (join_step d name) = walk_step f (locate f d) name.
Proof.
  intros Hn. unfold locate. rewrite (starts_with_sep_join _ _ Hn).
  apply fold_join; [apply walk_step_empty|done].
Qed.

Lemma path_key_join c d name :
  has "/" name = false ->
  path_key c (join_step d name) = key_step (path_key c d) name.
Proof.
  intros Hn. unfold path_key. rewrite (starts_with_sep_join _ _ Hn).
  apply fold_join; [apply key_step_empty|done].
Qed.

Lemma is_name_inv name :
  is_name name = true ->
  name <> "" /\ has "/" name = false /\ name <> "." /\ name <> ".."
  /\ (String.length name <= 255)%nat.
Proof.
  unfold is_name. intros H. repeat apply andb_prop in H as [H ?].
  repeat split.
  - apply String.eqb_neq. by apply negb_true_iff.
  - by apply negb_true_iff.
  - apply String.eqb_neq. by apply negb_true_iff.
  - apply String.eqb_neq. by apply negb_true_iff.
  - by apply Nat.leb_le.
Qed.

Lemma key_step_name k name : is_name name = true -> key_step k name = (k ++ [name])%list.
Proof.
  intros (H1 & _ & H2 & H3 & _)%is_name_inv. unfold key_step.
  apply String.eqb_neq in H1, H2, H3. by rewrite H1, H2, H3.
Qed.

Lemma walk_step_name f k name :
  is_name name = true -> node_at f k = Some Dir ->
  walk_step f (Ok k) name = Ok (k ++ [name])%list.
Proof.
  intros (H1 & _ & H2 & H3 & H4)%is_name_inv Hd. unfold walk_step.
  apply String.eqb_neq in H1, H2, H3. rewrite H1, H2, H3, Hd.
  by rewrite (proj2 (Nat.ltb_ge _ _) H4).
Qed.

Lemma path_key_child c d name :
  is_name name = true ->
  path_key c (join_step d name) = (path_key c d ++ [name])%list.
Proof.
  intros Hn. pose proof (is_name_inv _ Hn) as (_ & Hs & _).
  by rewrite (path_key_join _ _ _ Hs), key_step_name.
Qed.

Lemma ends_with_sep_join d name :
  name <> "" -> has "/" name = false -> ends_with_sep (join_step d name) = false.
Proof.
  intros Hne Hn. unfold join_step. rewrite (no_sep_no_leading _ Hn).
  destruct (String.eqb d "" || ends_with_sep d).
  - rewrite ends_with_sep_append by done. by apply no_sep_no_trailing.
  - rewrite ends_with_sep_append by done.
    change ("/" ++ name) with (String "/" name).
    destruct name as [|c name]; [done|].
    change (ends_with_sep (String "/" (String c name)))
      with (ends_with_sep (String c name)). by apply no_sep_no_trailing.
Qed.

Lemma join_step_append d name :
  has "/" name = false -> exists x, join_step d name = d ++ x.
Proof.
  intros Hn. unfold join_step. rewrite (no_sep_no_leading _ Hn).
  destruct (String.eqb d "" || ends_with_sep d); eauto.
Qed.

Lemma path_ok_prefix (a b : string) : a <> "" -> path_ok (a ++ b) = true -> path_ok a = true.
Proof.
  intros Ha. unfold path_ok. rewrite has_append, append_length.
  intros [[_ H1]%andb_prop H2]%andb_prop.
  apply negb_true_iff, orb_false_elim in H1 as [H1 _].
  apply Nat.ltb_lt in H2. apply String.eqb_neq in Ha. rewrite Ha, H1. cbn [negb andb].
  apply Nat.ltb_lt. lia.
Qed.

(** A name looked up in a directory that exists. *)
Lemma resolve_child f d name k slash :
  resolve f d = Ok (k, slash) ->
  node_at f k = Some Dir ->
  is_name name = true ->
  path_ok (join_step d name) = true ->
  resolve f (join_step d name) = Ok ((k ++ [name])%list, false).
Proof.
  intros (_ & Hloc & _)%resolve_inv Hdir Hname Hok.
  pose proof (is_name_inv _ Hname) as (Hne & Hs & _).
  rewrite <- (ends_with_sep_join d name Hne Hs).
  apply resolve_of_locate; [done|].
  by rewrite (locate_join _ _ _ Hs), Hloc, walk_step_name.
Qed.

(** *** [posixpath.split] on a joined path *)

Lemma rfind_append_sep c (a b : string) :
  has c b = false -> rfind c (a ++ String c b) = Some (String.length a).
Proof.
  intros Hb. induction a as [|x a IH].
  - change ("" ++ String c b) with (String c b). cbn [rfind].
    rewrite has_rfind in Hb. destruct (rfind c b); [done|].
    by rewrite Ascii.eqb_refl.
  - rewrite append_cons.
    change (match rfind c (a ++ String c b) with
            | Some i => Some (S i)
            | None => if Ascii.eqb x c then Some 0%nat else None
            end = Some (S (String.length a))).
    by rewrite IH.
Qed.

Lemma slice_to_append_sep c (a b : string) :
  slice_to (S (String.length a)) (a ++ String c b) = a ++ String c "".
Proof.
  induction a as [|x a IH]; [done|]. rewrite !append_cons.
  change (String x (slice_to (S (String.length a)) (a ++ String c b))
          = String x (a ++ String c "")).
  by rewrite IH.
Qed.

Lemma slice_from_append_sep c (a b : string) :
  slice_from (S (String.length a)) (a ++ String c b) = b.
Proof.
  induction a as [|x a IH]; [by destruct b|].
  rewrite append_cons. exact IH.
Qed.

Lemma all_slashes_end s : s <> "" -> str_forall is_slash s = true -> ends_with_sep s = true.
Proof.
  induction s as [|x s IH]; [done|]. intros _. cbn [str_forall].
  intros [Hx Hs]%andb_prop. destruct s as [|y s]; [exact Hx|].
  change (ends_with_sep (String x (String y s))) with (ends_with_sep (String y s)).
  by apply IH.
Qed.

Lemma rstrip_all p s : str_forall p s = true -> rstrip p s = "".
Proof.
  induction s as [|x s IH]; [done|]. cbn [str_forall rstrip].
  intros [Hx Hs]%andb_prop. by rewrite (IH Hs), Hx.
Qed.

Lemma rstrip_append p (a b : string) :
  str_forall p b = true -> rstrip p (a ++ b) = rstrip p a.
Proof.
  intros Hb. induction a as [|x a IH]; [by apply rstrip_all|].
  rewrite append_cons. cbn [rstrip]. by rewrite IH.
Qed.

Lemma rstrip_no_trailing_sep s : ends_with_sep s = false -> rstrip is_slash s = s.
Proof.
  induction s as [|x s IH]; [done|]. destruct s as [|y s].
  - cbn [ends_with_sep rstrip]. unfold is_slash. by intros ->.
  - change (ends_with_sep (String x (String y s))) with (ends_with_sep (String y s)).
    intros H. cbn [rstrip]. fold (rstrip is_slash (String y s)).
    change (match rstrip is_slash (String y s) with
            | "" => if is_slash x then "" else String x ""
            | String a s0 => String x (String a s0)
            end = String x (String y s)).
    by rewrite (IH H).
Qed.

Lemma py_split_join d name :
  d <> "" -> ends_with_sep d = false -> has "/" name = false ->
  py_split (d ++ "/" ++ name) = (d, name).
Proof.
  intros Hd He Hn. unfold py_split.
  change ("/" ++ name) with (String "/" name).
  rewrite (rfind_append_sep _ _ _ Hn). cbv beta iota zeta.
  rewrite slice_to_append_sep, slice_from_append_sep.
  assert (Hne : String.eqb (d ++ "/") "" = false).
  { apply String.eqb_neq. by intros [? _]%append_empty. }
  assert (Hall : str_forall is_slash (d ++ "/") = false).
  { rewrite str_forall_append. destruct (str_forall is_slash d) eqn:E; [|done].
    by rewrite (all_slashes_end _ Hd E) in He. }
  rewrite Hne, Hall. cbn [negb andb].
  by rewrite rstrip_append, rstrip_no_trailing_sep.
Qed.





(** *** The fuel of [makedirs] *)

Lemma slice_length n s :
  (String.length (slice_to n s) + String.length (slice_from n s))%nat = String.length s.
Proof.
  revert s. induction n as [|n IH]; intros [|x s]; try done.
  cbn [slice_to slice_from String.length]. by rewrite <- (IH s).
Qed.

Lemma rstrip_length p s : (String.length (rstrip p s) <= String.length s)%nat.
Proof.
  induction s as [|x s IH]; [done|]. cbn [rstrip].
  destruct (rstrip p s) as [|y r].
  - destruct (p x); cbn [String.length]; lia.
  - cbn [String.length] in *. lia.
Qed.

Lemma py_split_length p :
  (String.length (fst (py_split p)) + String.length (snd (py_split p))
   <= String.length p)%nat.
Proof.
  unfold py_split. cbn [fst snd].
  set (i := match rfind "/" p with Some j => S j | None => 0%nat end).
  pose proof (slice_length i p) as Hl.
  pose proof (rstrip_length is_slash (slice_to i p)) as Hr.
  destruct (negb _ && negb _); lia.
Qed.

(** The result of [makedirs_fuel] does not depend on the fuel, once the
    fuel exceeds the length of the path: [makedirs] never runs out of it. *)
Lemma makedirs_fuel_enough fuel fuel' name w :
  (String.length name < fuel)%nat -> (String.length name < fuel')%nat ->
  makedirs_fuel fuel name w = makedirs_fuel fuel' name w.
Proof.
  revert fuel' name w. induction fuel as [|fuel IH]; intros fuel' name w H1 H2;
    [lia|].
  destruct fuel' as [|fuel']; [lia|]. cbn [makedirs_fuel].
  pose proof (py_split_length name) as Hn.
  destruct (py_split name) as [head tail]. cbn [fst snd] in Hn.
  assert (Hrec : forall h t : string,
             (String.length h + String.length t <= String.length name)%nat ->
             (b ← path_exists h;
              if negb (String.eqb h "") && negb (String.eqb t "") && negb b
              then except_file_exists (makedirs_fuel fuel h);;
                   (if String.eqb t "." then mret tt else mkdir name)
              else mkdir name) w
             = (b ← path_exists h;
                if negb (String.eqb h "") && negb (String.eqb t "") && negb b
                then except_file_exists (makedirs_fuel fuel' h);;
                     (if String.eqb t "." then mret tt else mkdir name)
                else mkdir name) w).
  { intros h t Hl. unfold mbind, M_bind, bind, path_exists.
    destruct (String.eqb_spec t "") as [->|Ht]; [by rewrite andb_false_r|].
    destruct (negb (String.eqb h "") && negb false && negb (fs_exists (fs w) h));
      [|done].
    unfold except_file_exists. rewrite (IH fuel' h w); [done| |].
    all: destruct t as [|c t]; [done|]; cbn [String.length] in Hl; lia. }
  destruct (String.eqb_spec tail "") as [->|Ht].
  - pose proof (py_split_length head) as Hh.
    destruct (py_split head) as [h2 t2]. cbn [fst snd] in Hh.
    apply Hrec. lia.
  - by apply Hrec.
Qed.

(** *** [img.save] *)

Section SaveFacts.

Variable encode : image -> bool -> result string.

Lemma save_ok img p optimize k data w :
  resolve (fs w) p = Ok (k, false) ->
  node_at (fs w) k <> Some Dir ->
  encode img optimize = Ok data ->
  save encode img p optimize w
  = (mkWorld (put k (File data) (fs w)) (http_log w), Ok tt).
Proof.
  intros Hr Hn He. unfold save, mbind, M_bind, bind, path_exists.
  rewrite (open_write_ok _ _ _ Hr Hn), He. unfold write_at. cbn [fs http_log].
  by rewrite put_put.
Qed.

Lemma save_inv img p optimize w w' :
  save encode img p optimize w = (w', Ok tt) ->
  exists k data,
    resolve (fs w) p = Ok (k, false)
    /\ node_at (fs w) k <> Some Dir
    /\ encode img optimize = Ok data
    /\ w' = mkWorld (put k (File data) (fs w)) (http_log w).
Proof.
  unfold save, mbind, M_bind, bind, path_exists.
  destruct (open_write p w) as [w1 [k|e]] eqn:Ho; [|discriminate].
  apply open_write_inv in Ho as (Hr & Hn & ->).
  destruct (encode img optimize) as [data|e].
  - unfold write_at. cbn [fs http_log]. rewrite put_put. intros [= <-].
    by exists k, data.
  - match goal with |- context [?m (mkWorld ?f ?l)] =>
      destruct (m (mkWorld f l)) as [w2 [[]|e2]] end; discriminate.
Qed.

(** A [save] that raises leaves the file system as it was, or with the
    file that was at the destination emptied. *)
Lemma save_raise img p optimize w w' e :
  save encode img p optimize w = (w', Raise e) ->
  http_log w' = http_log w
  /\ (fs w' = fs w
      \/ exists k c, resolve (fs w) p = Ok (k, false)
                     /\ node_at (fs w) k = Some (File c)
                     /\ fs w' = put k (File "") (fs w)).
Proof.
  unfold save, mbind, M_bind, bind, path_exists.
  destruct (open_write p w) as [w1 [k|e0]] eqn:Ho.
  2:{ apply open_write_raise in Ho as ->. intros [= <- _]. split; [done|by left]. }
  apply open_write_inv in Ho as (Hr & Hn & ->).
  destruct (encode img optimize) as [data|e0]; [discriminate|].
  destruct (fs_exists (fs w) p) eqn:Hex; cbn [negb mret M_ret ret].
  - unfold raise. intros [= <- _]. cbn [fs http_log]. split; [done|]. right.
    apply fs_exists_true in Hex as (k' & slash & n & Hr' & Hk & _).
    rewrite Hr in Hr'. injection Hr' as <- <-.
    destruct n as [c|]; [|done]. by exists k, c.
  - pose proof (fs_exists_false _ _ _ Hex Hr) as Hnone.
    unfold remove. cbn [fs http_log].
    rewrite (resolve_grows _ _ _ _ (grows_put_file k "" _ Hn) Hr).
    rewrite node_at_put_eq by (by eapply not_dir_not_root).
    rewrite (unlink_put _ _ _ Hnone). unfold raise.
    intros [= <- _]. split; [done|by left].
Qed.

Lemma save_grows img p optimize w :
  let w' := fst (save encode img p optimize w) in
  grows (fs w) (fs w') /\ http_log w' = http_log w.
Proof.
  destruct (save encode img p optimize w) as [w' [[]|e]] eqn:H; cbn [fst].
  - apply save_inv in H as (k & data & _ & Hn & _ & ->). cbn [fs http_log].
    split; [|done]. by apply grows_put_file.
  - apply save_raise in H as [Hl [Hf|(k & c & _ & Hk & Hf)]]; rewrite Hf.
    + split; [apply grows_refl|done].
    + split; [|done]. apply grows_put_file. by rewrite Hk.
Qed.

End SaveFacts.

(** ** The audio downloader *)

Lemma fs_exists_none f p k slash :
  resolve f p = Ok (k, slash) -> node_at f k = None -> fs_exists f p = false.
Proof. unfold fs_exists, stat. by intros -> ->. Qed.

Section AudioFacts.

Variable network : string -> result response.
Variable config : config.

Lemma audio_path_inv episode p :
  audio_path config episode = Ok p ->
  exists file_name,
    getitem episode "file_name" = Ok (VStr file_name)
    /\ p = join (output_dir config) ["audio"; file_name].
Proof.
  unfold audio_path, mbind, result_mbind.
  destruct (getitem episode "file_name") as [[|fn| |]|]; try discriminate.
  cbn. intros [= <-]. by exists fn.
Qed.

Lemma audio_path_of episode file_name :
  getitem episode "file_name" = Ok (VStr file_name) ->
  audio_path config episode = Ok (join (output_dir config) ["audio"; file_name]).
Proof. intros H. unfold audio_path, mbind, result_mbind. by rewrite H. Qed.

(** The turn of an episode whose destination exists. *)
Lemma download_audio_file_present episode p w :
  audio_path config episode = Ok p ->
  fs_exists (fs w) p = true ->
  download_audio_file network config episode w = (w, Ok tt).
Proof.
  intros Hp Hex. apply audio_path_inv in Hp as (fn & Hfn & ->).
  unfold download_audio_file, mbind, M_bind, bind, lift, path_exists.
  rewrite Hfn. cbn [result_mbind result_bind as_str]. by rewrite Hex.
Qed.

(** The turn of an episode whose destination is missing in a directory
    that is there. *)
Lemma download_audio_file_missing episode p url k w :
  audio_path config episode = Ok p ->
  resolve (fs w) p = Ok (k, false) ->
  node_at (fs w) k = None ->
  enclosure_url episode = Ok (VStr url) ->
  download_audio_file network config episode w
  = match network url with
    | Ok r => (mkWorld (put k (File (content r)) (fs w)) (http_log w ++ [url]), Ok tt)
    | Raise e => (mkWorld (fs w) (http_log w ++ [url]), Raise e)
    end.
Proof.
  intros Hp Hr Hnone Hurl. pose proof (fs_exists_none _ _ _ _ Hr Hnone) as Hex.
  apply audio_path_inv in Hp as (fn & Hfn & ->).
  unfold download_audio_file, mbind, M_bind, bind, lift, path_exists.
  rewrite Hfn. cbn [result_mbind result_bind as_str]. rewrite Hex. cbn [negb].
  unfold enclosure_url, mbind in Hurl. rewrite Hurl.
  unfold requests_get. destruct (network url) as [r|e]; [|done].
  rewrite (write_file_ok _ _ k); [done|done|]. cbn [fs]. by rewrite Hnone.
Qed.

(** What one turn of the loop can do: nothing, a GET that is not followed
    by a write, or a GET whose body is written to a destination that was
    missing. *)
Lemma download_audio_file_cases episode w :
  let w' := fst (download_audio_file network config episode w) in
  w' = w
  \/ exists p url,
       audio_path config episode = Ok p
       /\ enclosure_url episode = Ok (VStr url)
       /\ fs_exists (fs w) p = false
       /\ http_log w' = (http_log w ++ [url])%list
       /\ (fs w' = fs w
           \/ exists r k, network url = Ok r
                          /\ resolve (fs w) p = Ok (k, false)
                          /\ node_at (fs w) k = None
                          /\ fs w' = put k (File (content r)) (fs w)).
Proof.
  unfold download_audio_file, mbind, M_bind, bind, lift, path_exists.
  destruct (getitem episode "file_name") as [[|fn| |]|] eqn:Hfn;
    try (by left).
  cbn [result_mbind result_bind as_str mbind].
  destruct (fs_exists (fs w) (join (output_dir config) ["audio"; fn])) eqn:Hex;
    [by left|].
  cbn [negb].
  destruct (result_mbind _ _ _ (getitem episode "enclosure"))
    as [[|url| |]|] eqn:Hu; try (by left).
  right. exists (join (output_dir config) ["audio"; fn]), url.
  split; [by apply audio_path_of|]. split; [exact Hu|]. split; [done|].
  unfold requests_get.
  destruct (network url) as [r|e] eqn:Hr; cbn [fst fs http_log];
    [|split; [done|by left]].
  set (w1 := mkWorld (fs w) (http_log w ++ [url])).
  destruct (write_file _ (content r) w1) as [w2 [[]|e]] eqn:Hw; cbn [fst].
  - apply write_file_inv in Hw as (k & Hk & Hn & ->). cbn [fs http_log].
    split; [done|]. right. exists r, k. repeat split; try done.
    by apply (fs_exists_false _ _ _ Hex).
  - apply write_file_raise in Hw as ->. split; [done|by left].
Qed.

(** A node that exists is left alone by one turn, hence by the loop. *)
Lemma download_audio_file_extends episode w :
  extends (fs w) (fs (fst (download_audio_file network config episode w))).
Proof.
  destruct (download_audio_file_cases episode w)
    as [->|(p & url & _ & _ & _ & _ & [->|(r & k & _ & _ & Hnone & ->)])].
  - apply extends_refl.
  - apply extends_refl.
  - by apply extends_put.
Qed.

Lemma download_audio_files_extends episodes w :
  extends (fs w) (fs (fst (download_audio_files network config episodes w))).
Proof.
  revert w. induction episodes as [|episode rest IH]; intros w;
    [apply extends_refl|].
  cbn [download_audio_files]. unfold mbind, M_bind, bind.
  pose proof (download_audio_file_extends episode w) as Hstep.
  destruct (download_audio_file network config episode w) as [w1 [[]|e]];
    cbn [fst] in *; [|done].
  eapply extends_trans; [exact Hstep|apply IH].
Qed.

(** One turn writes to the destination of its own episode only. *)
Lemma download_audio_file_frame episode w k :
  (forall p, audio_path config episode = Ok p -> path_key (cwd (fs w)) p <> k) ->
  node_at (fs (fst (download_audio_file network config episode w))) k
  = node_at (fs w) k.
Proof.
  intros Hk.
  destruct (download_audio_file_cases episode w)
    as [->|(p & url & Hp & _ & _ & _ & [->|(r & k' & _ & Hr & _ & ->)])];
    try done.
  apply node_at_put_ne. apply resolve_key in Hr as ->. intros ->.
  by apply (Hk p).
Qed.

Lemma download_audio_files_frame episodes w k :
  (forall episode p, episode ∈ episodes -> audio_path config episode = Ok p ->
                     path_key (cwd (fs w)) p <> k) ->
  node_at (fs (fst (download_audio_files network config episodes w))) k
  = node_at (fs w) k.
Proof.
  revert w. induction episodes as [|episode rest IH]; intros w Hall; [done|].
  cbn [download_audio_files]. unfold mbind, M_bind, bind.
  pose proof (download_audio_file_frame episode w k) as Hstep.
  pose proof (download_audio_file_extends episode w) as [Hc _].
  destruct (download_audio_file network config episode w) as [w1 [[]|e]];
    cbn [fst] in *.
  - rewrite IH.
    + apply Hstep. intros p. apply Hall. by left.
    + intros e p He. rewrite Hc. apply Hall. by right.
  - apply Hstep. intros p. apply Hall. by left.
Qed.

Lemma download_audio_files_app (pre post : list value) w :
  download_audio_files network config (pre ++ post)%list w
  = match download_audio_files network config pre w with
    | (w1, Ok _) => download_audio_files network config post w1
    | (w1, Raise e) => (w1, Raise e)
    end.
Proof.
  revert w. induction pre as [|episode pre IH]; intros w; [done|].
  cbn [app download_audio_files]. unfold mbind, M_bind, bind.
  destruct (download_audio_file network config episode w) as [w1 [[]|e]]; [|done].
  apply IH.
Qed.

(** Every GET of the loop is for an episode whose destination did not
    exist when the loop started. *)
Lemma download_audio_files_log episodes w :
  exists fetched,
    http_log (fst (download_audio_files network config episodes w))
    = (http_log w ++ fetched)%list
    /\ Forall (fun url =>
                 exists episode p,
                   episode ∈ episodes
                   /\ audio_path config episode = Ok p
                   /\ enclosure_url episode = Ok (VStr url)
                   /\ fs_exists (fs w) p = false)
              fetched.
Proof.
  revert w. induction episodes as [|episode rest IH]; intros w.
  { exists []. split; [by rewrite app_nil_r|constructor]. }
  cbn [download_audio_files]. unfold mbind, M_bind, bind.
  pose proof (download_audio_file_cases episode w) as Hstep.
  pose proof (download_audio_file_extends episode w) as Hext.
  destruct (download_audio_file network config episode w) as [w1 r].
  cbn [fst] in Hstep, Hext.
  assert (Hrest : exists fetched,
             http_log (fst (match r with
                            | Ok _ => download_audio_files network config rest w1
                            | Raise e => (w1, Raise e)
                            end)) = (http_log w1 ++ fetched)%list
             /\ Forall (fun url =>
                          exists episode0 p,
                            episode0 ∈ episode :: rest
                            /\ audio_path config episode0 = Ok p
                            /\ enclosure_url episode0 = Ok (VStr url)
                            /\ fs_exists (fs w) p = false) fetched).
  { destruct r as [[]|e].
    - destruct (IH w1) as (fetched & Hlog & Hall). exists fetched. split; [done|].
      eapply Forall_impl; [exact Hall|].
      intros url (ep & p & Hin & Hp & Hurl & Hex).
      exists ep, p. repeat split; try done; [by right|].
      destruct (fs_exists (fs w) p) eqn:Hw; [|done].
      apply (fs_exists_grows _ _ _ (extends_grows _ _ Hext)) in Hw. congruence.
    - exists []. split; [by rewrite app_nil_r|constructor]. }
  destruct Hrest as (fetched & Hlog & Hall).
  destruct r as [[]|e]; cbn [fst] in *.
  all: destruct Hstep as [->|(p & url & Hp & Hurl & Hex & Hl & _)];
    [by exists fetched|].
  all: exists (url :: fetched); split;
    [by rewrite Hlog, Hl, <- app_assoc|].
  all: constructor; [|done].
  all: exists episode, p; repeat split; try done; by left.
Qed.

(** A turn that returns on a destination that did not exist has fetched
    the enclosure URL and written the body. *)
Lemma download_audio_file_fetched episode p w w' :
  audio_path config episode = Ok p ->
  fs_exists (fs w) p = false ->
  download_audio_file network config episode w = (w', Ok tt) ->
  exists url r k,
    enclosure_url episode = Ok (VStr url)
    /\ network url = Ok r
    /\ resolve (fs w) p = Ok (k, false)
    /\ node_at (fs w) k = None
    /\ w' = mkWorld (put k (File (content r)) (fs w)) (http_log w ++ [url]).
Proof.
  intros Hp Hex. apply audio_path_inv in Hp as (fn & Hfn & ->).
  unfold download_audio_file, mbind, M_bind, bind, lift, path_exists.
  rewrite Hfn. cbn [result_mbind result_bind as_str]. rewrite Hex. cbn [negb].
  unfold enclosure_url, mbind.
  destruct (result_mbind _ _ _ (getitem episode "enclosure"))
    as [[|url| |]|]; try discriminate.
  unfold requests_get. destruct (network url) as [r|e] eqn:Hnet; [|discriminate].
  intros (k & Hk & Hn & ->)%write_file_inv. cbn [fs http_log] in *.
  exists url, r, k. repeat split; try done.
  by apply (fs_exists_false _ _ _ Hex).
Qed.

(** After a turn that returned, the destination exists. *)
Lemma download_audio_file_ok_exists episode w w' :
  download_audio_file network config episode w = (w', Ok tt) ->
  exists p, audio_path config episode = Ok p /\ fs_exists (fs w') p = true.
Proof.
  intros Hrun.
  destruct (getitem episode "file_name") as [[|fn| |]|] eqn:Hfn;
    try (unfold download_audio_file, mbind, M_bind, bind, lift in Hrun;
         rewrite Hfn in Hrun; discriminate).
  pose proof (audio_path_of _ _ Hfn) as Hp.
  exists (join (output_dir config) ["audio"; fn]). split; [done|].
  destruct (fs_exists (fs w) (join (output_dir config) ["audio"; fn])) eqn:Hex.
  - rewrite (download_audio_file_present _ _ _ Hp Hex) in Hrun.
    by injection Hrun as <-.
  - destruct (download_audio_file_fetched _ _ _ _ Hp Hex Hrun)
      as (url & r & k & _ & _ & Hk & Hnone & ->). cbn [fs].
    apply (fs_exists_node _ _ k (File (content r))).
    + eapply resolve_grows; [|exact Hk]. apply grows_put_file. by rewrite Hnone.
    + apply node_at_put_eq. intros ->. discriminate.
Qed.

Lemma download_audio_files_ok_exist episodes w w1 :
  download_audio_files network config episodes w = (w1, Ok tt) ->
  forall episode, episode ∈ episodes ->
    exists p, audio_path config episode = Ok p /\ fs_exists (fs w1) p = true.
Proof.
  revert w. induction episodes as [|episode rest IH]; intros w Hrun e He.
  { by apply elem_of_nil in He. }
  cbn [download_audio_files] in Hrun. unfold mbind, M_bind, bind in Hrun.
  destruct (download_audio_file network config episode w) as [w' [[]|err]] eqn:Hstep;
    [|discriminate].
  apply elem_of_cons in He as [->|He]; [|by eapply IH].
  destruct (download_audio_file_ok_exists _ _ _ Hstep) as (p & Hp & Hex).
  exists p. split; [done|].
  pose proof (download_audio_files_extends rest w') as Hext.
  rewrite Hrun in Hext. cbn [fst] in Hext.
  by apply (fs_exists_grows _ _ _ (extends_grows _ _ Hext)).
Qed.

Lemma download_audio_files_present episodes w :
  (forall episode, episode ∈ episodes ->
     exists p, audio_path config episode = Ok p /\ fs_exists (fs w) p = true) ->
  download_audio_files network config episodes w = (w, Ok tt).
Proof.
  induction episodes as [|episode rest IH]; intros Hall; [done|].
  cbn [download_audio_files]. unfold mbind, M_bind, bind.
  destruct (Hall episode) as (p & Hp & Hex); [by left|].
  rewrite (download_audio_file_present _ _ _ Hp Hex).
  apply IH. intros e He. apply Hall. by right.
Qed.

(** Of the episodes that lead to one destination, the first is fetched:
    when the destination is missing at the start, in a directory that is
    there, a run that returns has issued the GET for the first episode
    that leads to it and has left the body there. *)
Lemma download_audio_files_first pre episode post w w1 p k :
  download_audio_files network config (pre ++ episode :: post)%list w = (w1, Ok tt) ->
  audio_path config episode = Ok p ->
  resolve (fs w) p = Ok (k, false) ->
  node_at (fs w) k = None ->
  (forall episode' p', episode' ∈ pre -> audio_path config episode' = Ok p' ->
                       path_key (cwd (fs w)) p' <> k) ->
  exists url r fetched fetched',
    enclosure_url episode = Ok (VStr url)
    /\ network url = Ok r
    /\ http_log w1 = (http_log w ++ fetched ++ url :: fetched')%list
    /\ stat (fs w1) p = Ok (File (content r)).
Proof.
  intros Hrun Hp Hk Hnone Hpre. rewrite download_audio_files_app in Hrun.
  pose proof (download_audio_files_frame pre w k Hpre) as Hframe.
  pose proof (download_audio_files_extends pre w) as Hext.
  destruct (download_audio_files_log pre w) as (fetched & Hlog & _).
  destruct (download_audio_files network config pre w) as [wa [[]|e]];
    [|discriminate].
  cbn [fst] in *. rewrite Hnone in Hframe.
  pose proof (resolve_grows _ _ _ _ (extends_grows _ _ Hext) Hk) as Hka.
  cbn [download_audio_files] in Hrun. unfold mbind, M_bind, bind in Hrun.
  destruct (download_audio_file network config episode wa) as [wb [[]|e]] eqn:Hstep;
    [|discriminate].
  destruct (download_audio_file_fetched _ _ _ _ Hp
              (fs_exists_none _ _ _ _ Hka Hframe) Hstep)
    as (url & r & k' & Hurl & Hnet & Hk' & _ & ->).
  rewrite Hka in Hk'. injection Hk' as <-.
  pose proof (download_audio_files_extends post
                (mkWorld (put k (File (content r)) (fs wa)) (http_log wa ++ [url])))
    as Hpost.
  destruct (download_audio_files_log post
              (mkWorld (put k (File (content r)) (fs wa)) (http_log wa ++ [url])))
    as (fetched' & Hlog' & _).
  rewrite Hrun in Hpost, Hlog'. cbn [fst fs http_log] in Hpost, Hlog'.
  assert (Hroot : k <> []) by (intros ->; discriminate).
  exists url, r, fetched, fetched'. repeat split; try done.
  - rewrite Hlog', Hlog, <- !app_assoc. done.
  - apply (stat_file _ _ k).
    + eapply resolve_grows; [|exact Hka].
      eapply grows_trans; [|apply extends_grows, Hpost].
      apply grows_put_file. by rewrite Hframe.
    + destruct Hpost as [_ Hpost]. rewrite Hpost.
      * by apply node_at_put_eq.
      * rewrite node_at_put_eq by done. eauto.
Qed.

End AudioFacts.

(** C2.  For every episode: if the destination [<output>/audio/<file_name>]
    exists, the downloader issues no GET and leaves the file system as it
    is; if it does not exist, in a directory that does, the enclosure URL
    is fetched and the whole body of the response is written to the
    destination.  Over the whole loop, a node that existed at the start is
    left as it was, every GET issued is for an episode whose destination
    did not exist at the start, and a destination that was missing at the
    start holds, after a run that returned, the body fetched for the first
    episode that leads to it. *)
Theorem audio_download_skips_existing_files
  (network : string -> result response) (config : config) :
  (forall episode p w,
     audio_path config episode = Ok p ->
     fs_exists (fs w) p = true ->
     download_audio_file network config episode w = (w, Ok tt))
  /\ (forall episode p url r k w,
        audio_path config episode = Ok p ->
        enclosure_url episode = Ok (VStr url) ->
        resolve (fs w) p = Ok (k, false) ->
        node_at (fs w) k = None ->
        network url = Ok r ->
        download_audio_file network config episode w
        = (mkWorld (put k (File (content r)) (fs w)) (http_log w ++ [url]), Ok tt))
  /\ (forall episodes w k,
        is_Some (node_at (fs w) k) ->
        node_at (fs (fst (download_audio_files network config episodes w))) k
        = node_at (fs w) k)
  /\ (forall episodes w,
        exists fetched,
          http_log (fst (download_audio_files network config episodes w))
          = (http_log w ++ fetched)%list
          /\ Forall (fun url =>
                       exists episode p,
                         episode ∈ episodes
                         /\ audio_path config episode = Ok p
                         /\ enclosure_url episode = Ok (VStr url)
                         /\ fs_exists (fs w) p = false)
                    fetched)
  /\ (forall pre episode post w w1 p k,
        download_audio_files network config (pre ++ episode :: post)%list w
        = (w1, Ok tt) ->
        audio_path config episode = Ok p ->
        resolve (fs w) p = Ok (k, false) ->
        node_at (fs w) k = None ->
        (forall episode' p', episode' ∈ pre ->
                             audio_path config episode' = Ok p' ->
                             path_key (cwd (fs w)) p' <> k) ->
        exists url r fetched fetched',
          enclosure_url episode = Ok (VStr url)
          /\ network url = Ok r
          /\ http_log w1 = (http_log w ++ fetched ++ url :: fetched')%list
          /\ stat (fs w1) p = Ok (File (content r))).
Proof.
  split; [|split; [|split; [|split]]].
  - apply download_audio_file_present.
  - intros episode p url r k w Hp Hurl Hk Hnone Hnet.
    by rewrite (download_audio_file_missing _ _ _ _ _ _ _ Hp Hk Hnone Hurl), Hnet.
  - intros episodes w k. apply download_audio_files_extends.
  - apply download_audio_files_log.
  - apply download_audio_files_first.
Qed.

Lemma audio_download_skips_existing_files_witness :
  download_audio_file demo_network (demo_config "") episode_one sentinel_world
  = (sentinel_world, Ok tt)
  /\ download_audio_file demo_network (demo_config "") episode_one site_world
     = (mkWorld (put ["site"; "audio"; "ep1.mp3"] (File "audio one") (fs site_world))
          ["https://cdn.example/ep1.mp3?token=abc"], Ok tt)
  /\ stat (fs (fst (download_audio_files demo_network (demo_config "")
                      [episode_one; episode_mirror] site_world)))
       "site/audio/ep1.mp3"
     = Ok (File "audio one").
Proof.
  destruct (audio_download_skips_existing_files demo_network (demo_config ""))
    as (Hskip & Hfetch & _ & _ & Hfirst).
  split; [|split].
  - by apply (Hskip episode_one "site/audio/ep1.mp3" sentinel_world).
  - by apply (Hfetch episode_one "site/audio/ep1.mp3"
                "https://cdn.example/ep1.mp3?token=abc"
                (mkResponse 200 "audio one") ["site"; "audio"; "ep1.mp3"] site_world).
  - destruct (Hfirst [] episode_one [episode_mirror] site_world
                (mkWorld (put ["site"; "audio"; "ep1.mp3"] (File "audio one")
                            (fs site_world))
                   ["https://cdn.example/ep1.mp3?token=abc"])
                "site/audio/ep1.mp3" ["site"; "audio"; "ep1.mp3"])
      as (url & r & fetched & fetched' & Hurl & Hnet & _ & Hstat).
    + vm_compute. reflexivity.
    + reflexivity.
    + vm_compute. reflexivity.
    + vm_compute. reflexivity.
    + intros e p' He. by apply elem_of_nil in He.
    + injection Hurl as <-. injection Hnet as <-. exact Hstat.
Defined.

(** ** The renderers *)

Lemma stat_dir_inv f p :
  stat f p = Ok Dir ->
  exists k slash, resolve f p = Ok (k, slash) /\ node_at f k = Some Dir.
Proof.
  unfold stat. destruct (resolve f p) as [[k slash]|]; [|discriminate].
  destruct (node_at f k) as [[c|]|] eqn:Hn; try discriminate.
  - by destruct slash.
  - intros _. by exists k, slash.
Qed.

Lemma stat_dir_grows f f' p : grows f f' -> stat f p = Ok Dir -> stat f' p = Ok Dir.
Proof.
  intros Hg (k & slash & Hr & Hn)%stat_dir_inv. unfold stat.
  rewrite (resolve_grows _ _ _ _ Hg Hr). destruct Hg as (_ & Hd & _).
  by rewrite (Hd _ Hn).
Qed.

Lemma with_dir_adds k f : adds_dirs f (with_dir k f).
Proof.
  unfold with_dir. destruct (node_at f k) eqn:Hn; [apply adds_dirs_refl|].
  by apply adds_dirs_put.
Qed.

Lemma node_at_with_dir_eq k f :
  (forall c, node_at f k <> Some (File c)) -> node_at (with_dir k f) k = Some Dir.
Proof.
  intros Hf. unfold with_dir. destruct (node_at f k) as [[c|]|] eqn:Hn.
  - by destruct (Hf c).
  - done.
  - apply node_at_put_eq. by intros ->.
Qed.

Lemma node_at_with_dir_ne k k' f : k' <> k -> node_at (with_dir k f) k' = node_at f k'.
Proof.
  intros Hne. unfold with_dir. destruct (node_at f k); [done|].
  by apply node_at_put_ne.
Qed.

Lemma adds_dirs_no_file f f' k :
  adds_dirs f f' ->
  (forall c, node_at f k <> Some (File c)) -> forall c, node_at f' k <> Some (File c).
Proof.
  intros [_ H] Hf c. destruct (H k) as [E|[_ E]]; rewrite E; [apply Hf|done].
Qed.

Lemma str_forall_has p c s : str_forall p s = true -> p c = false -> has c s = false.
Proof.
  intros Hs Hc. induction s as [|x s IH]; [done|].
  cbn [str_forall] in Hs. apply andb_prop in Hs as [Hx Hs].
  rewrite has_cons, (IH Hs), orb_false_r.
  destruct (Ascii.eqb_spec x c) as [->|]; [congruence|done].
Qed.

(** A slug that is not empty and not too long is a name. *)
Lemma url_safe_is_name slug :
  url_safe slug = true -> slug <> "" -> (String.length slug <= 255)%nat ->
  is_name slug = true.
Proof.
  intros Hs Hne Hl. unfold is_name.
  apply String.eqb_neq in Hne. rewrite Hne.
  rewrite (str_forall_has _ "/" _ Hs) by done.
  destruct (String.eqb_spec slug ".") as [->|_]; [done|].
  destruct (String.eqb_spec slug "..") as [->|_]; [done|].
  by rewrite (proj2 (Nat.leb_le _ _) Hl).
Qed.

Lemma join_step_nonempty d name : name <> "" -> join_step d name <> "".
Proof.
  intros Hn. unfold join_step. destruct (starts_with_sep name); [done|].
  destruct (String.eqb d "" || ends_with_sep d); by intros [_ ?]%append_empty.
Qed.

Lemma path_ok_join d name :
  has "/" name = false -> d <> "" -> path_ok (join_step d name) = true ->
  path_ok d = true.
Proof.
  intros Hn Hd. destruct (join_step_append d name Hn) as [x ->].
  by apply path_ok_prefix.
Qed.

Lemma episode_slug_iff episode slug :
  episode_slug episode = Some slug <-> getitem episode "slug" = Ok (VStr slug).
Proof.
  unfold episode_slug. destruct (getitem episode "slug") as [[|s| |]|];
    split; try done; by intros [= ->].
Qed.

Section RenderFacts.

Variable render_template : string -> string -> context -> result string.
Variable config : config.
Variable podcast : value.

Lemma episode_dir_key c slug :
  is_name slug = true ->
  path_key c (episode_dir config slug)
  = (path_key c (episodes_root config) ++ [slug])%list.
Proof. apply path_key_child. Qed.

Lemma episode_page_key c slug :
  is_name slug = true ->
  path_key c (episode_page config slug)
  = (path_key c (episodes_root config) ++ [slug; "index.html"])%list.
Proof.
  intros Hs. unfold episode_page, join. cbn [foldl].
  rewrite path_key_child by done. rewrite (episode_dir_key _ _ Hs).
  by rewrite <- app_assoc.
Qed.

Lemma episode_page_key_inj c slug slug' :
  is_name slug = true -> is_name slug' = true ->
  path_key c (episode_page config slug) = path_key c (episode_page config slug') ->
  slug = slug'.
Proof.
  intros Hs Hs'. rewrite !episode_page_key by done.
  intros H%app_inv_head. by injection H.
Qed.

Lemma episode_page_not_dir_key c slug slug' :
  is_name slug = true -> is_name slug' = true ->
  path_key c (episode_page config slug) <> path_key c (episode_dir config slug').
Proof.
  intros Hs Hs'. rewrite episode_page_key, episode_dir_key by done.
  by intros H%app_inv_head.
Qed.

(** The directory of an episode is there after the first two statements
    of the loop body. *)
Lemma episode_dir_ready slug w :
  url_safe slug = true -> slug <> "" -> (String.length slug <= 255)%nat ->
  path_ok (episode_dir config slug) = true ->
  stat (fs w) (episodes_root config) = Ok Dir ->
  (forall c, node_at (fs w) (path_key (cwd (fs w)) (episode_dir config slug))
             <> Some (File c)) ->
  let kd := path_key (cwd (fs w)) (episode_dir config slug) in
  (b ← path_exists (episode_dir config slug);
   if negb b then makedirs (episode_dir config slug) else mret tt) w
  = (mkWorld (with_dir kd (fs w)) (http_log w), Ok tt)
  /\ resolve (with_dir kd (fs w)) (episode_dir config slug) = Ok (kd, false)
  /\ node_at (with_dir kd (fs w)) kd = Some Dir.
Proof.
  intros Hs Hne Hl Hok Hroot Hfile kd.
  pose proof (url_safe_is_name _ Hs Hne Hl) as Hname.
  destruct (stat_dir_inv _ _ Hroot) as (kr & slash & Hkr & Hdir).
  assert (Hres : resolve (fs w) (episode_dir config slug) = Ok (kd, false)).
  { pose proof (resolve_child _ _ _ _ _ Hkr Hdir Hname Hok) as H.
    pose proof (resolve_key _ _ _ _ H) as Hk.
    change (join_step (episodes_root config) slug)
      with (episode_dir config slug) in H, Hk.
    unfold kd. by rewrite <- Hk. }
  split; [|split].
  - unfold mbind, M_bind, bind, path_exists, with_dir. fold kd.
    destruct (node_at (fs w) kd) as [[c|]|] eqn:Hn.
    + by destruct (Hfile c).
    + rewrite (fs_exists_dir _ _ _ _ Hres Hn). cbn [negb mret M_ret ret].
      by destruct w.
    + rewrite (fs_exists_none _ _ _ _ Hres Hn). cbn [negb].
      rewrite (makedirs_of_mkdir _ (episodes_root config) slug).
      * by apply (mkdir_ok _ kd false).
      * rewrite (episode_dir_shape _ _ Hs).
        destruct (episodes_root_shape config) as [Hr1 Hr2].
        apply py_split_join; try done.
        by apply (str_forall_has _ "/" _ Hs).
      * done.
      * right. by apply stat_dir_exists.
  - eapply resolve_grows; [|exact Hres]. apply adds_dirs_grows, with_dir_adds.
  - by apply node_at_with_dir_eq.
Qed.

(** One episode: the directory is created when it is missing, then the
    page is written, whether or not a file was there before. *)
Lemma render_episode_ok episode slug out w :
  getitem episode "slug" = Ok (VStr slug) ->
  url_safe slug = true -> slug <> "" -> (String.length slug <= 255)%nat ->
  episode_output render_template config podcast episode = Ok out ->
  path_ok (episode_page config slug) = true ->
  stat (fs w) (episodes_root config) = Ok Dir ->
  (forall c, node_at (fs w) (path_key (cwd (fs w)) (episode_dir config slug))
             <> Some (File c)) ->
  node_at (fs w) (path_key (cwd (fs w)) (episode_page config slug)) <> Some Dir ->
  let kd := path_key (cwd (fs w)) (episode_dir config slug) in
  let kp := path_key (cwd (fs w)) (episode_page config slug) in
  render_episode render_template config podcast (theme_dir config) episode w
  = (mkWorld (put kp (File out) (with_dir kd (fs w))) (http_log w), Ok tt)
  /\ resolve (with_dir kd (fs w)) (episode_page config slug) = Ok (kp, false)
  /\ node_at (with_dir kd (fs w)) kp <> Some Dir.
Proof.
  intros Hslug Hs Hne Hl Hout Hok Hroot Hfile Hpage kd kp.
  pose proof (url_safe_is_name _ Hs Hne Hl) as Hname.
  assert (Hokd : path_ok (episode_dir config slug) = true).
  { apply (path_ok_join _ "index.html"); [done| |exact Hok].
    apply join_step_nonempty. done. }
  destruct (episode_dir_ready slug w Hs Hne Hl Hokd Hroot Hfile)
    as (Hdir & Hres & Hnode).
  fold kd in Hdir, Hres, Hnode.
  assert (Hresp : resolve (with_dir kd (fs w)) (episode_page config slug)
                  = Ok (kp, false)).
  { pose proof (resolve_child _ _ "index.html" _ _ Hres Hnode eq_refl Hok) as H.
    pose proof (resolve_key _ _ _ _ H) as Hk.
    change (join_step (episode_dir config slug) "index.html")
      with (episode_page config slug) in H, Hk.
    destruct (with_dir_adds kd (fs w)) as [Hc _]. rewrite Hc in Hk.
    unfold kp. by rewrite <- Hk. }
  assert (Hnp : node_at (with_dir kd (fs w)) kp <> Some Dir).
  { rewrite node_at_with_dir_ne; [done|].
    by apply episode_page_not_dir_key. }
  split; [|by split].
  unfold render_episode. unfold mbind at 1, M_bind at 1, bind at 1, lift at 1.
  rewrite Hslug. cbn [result_mbind result_bind as_str mbind].
  fold (episode_dir config slug). fold (episode_page config slug).
  unfold mbind at 1, M_bind at 1, bind at 1.
  unfold mbind, M_bind, bind in Hdir.
  destruct (path_exists (episode_dir config slug) w) as [w0 [b|e]] eqn:Hpe.
  2:{ unfold path_exists in Hpe. discriminate. }
  unfold mbind at 1, M_bind at 1, bind at 1. rewrite Hdir.
  unfold mbind, M_bind, bind, lift.
  unfold episode_output in Hout. rewrite Hout.
  by rewrite (write_file_ok _ _ kp).
Qed.

(** An episode stays renderable while another one is rendered. *)
Lemma renderable_after_step episode other w :
  renderable render_template config podcast (fs w) episode ->
  renderable render_template config podcast (fs w) other ->
  renderable render_template config podcast
    (fs (fst (render_episode render_template config podcast (theme_dir config)
                episode w))) other.
Proof.
  intros (slug & out & Hslug & Hs & Hne & Hl & Hout & Hok & Hroot & Hfile & Hpage)
         (s2 & o2 & Hs2 & Hsafe2 & Hne2 & Hl2 & Ho2 & Hok2 & Hroot2 & Hfile2 & Hpage2).
  destruct (render_episode_ok _ _ _ _ Hslug Hs Hne Hl Hout Hok Hroot Hfile Hpage)
    as (-> & _ & Hnp).
  cbn [fst fs].
  pose proof (url_safe_is_name _ Hs Hne Hl) as Hname.
  pose proof (url_safe_is_name _ Hsafe2 Hne2 Hl2) as Hname2.
  set (kd := path_key (cwd (fs w)) (episode_dir config slug)) in *.
  set (kp := path_key (cwd (fs w)) (episode_page config slug)) in *.
  assert (Hg : grows (fs w) (put kp (File out) (with_dir kd (fs w)))).
  { eapply grows_trans; [apply adds_dirs_grows, with_dir_adds|].
    by apply grows_put_file. }
  assert (Hc : cwd (put kp (File out) (with_dir kd (fs w))) = cwd (fs w))
    by (by destruct Hg).
  exists s2, o2. rewrite Hc. repeat split; try done.
  - by eapply stat_dir_grows.
  - intros c. rewrite node_at_put_ne.
    + by apply (adds_dirs_no_file _ _ _ (with_dir_adds kd (fs w))).
    + intros Heq. symmetry in Heq. revert Heq. by apply episode_page_not_dir_key.
  - destruct (decide (path_key (cwd (fs w)) (episode_page config s2) = kp))
      as [->|Hne'].
    + rewrite node_at_put_eq; [done|]. by eapply not_dir_not_root.
    + rewrite node_at_put_ne by done. rewrite node_at_with_dir_ne; [done|].
      by apply episode_page_not_dir_key.
Qed.

Lemma render_episodes_ok episodes w :
  (forall episode, episode ∈ episodes ->
                   renderable render_template config podcast (fs w) episode) ->
  exists w',
    render_episodes render_template config episodes podcast (theme_dir config) w
    = (w', Ok tt)
    /\ http_log w' = http_log w
    /\ grows (fs w) (fs w')
    /\ (forall slug,
          is_name slug = true ->
          (forall episode, episode ∈ episodes ->
                           getitem episode "slug" <> Ok (VStr slug)) ->
          node_at (fs w') (path_key (cwd (fs w)) (episode_page config slug))
          = node_at (fs w) (path_key (cwd (fs w)) (episode_page config slug)))
    /\ (forall episode, episode ∈ episodes ->
          exists slug episode' out,
            getitem episode "slug" = Ok (VStr slug)
            /\ episode' ∈ episodes
            /\ getitem episode' "slug" = Ok (VStr slug)
            /\ episode_output render_template config podcast episode' = Ok out
            /\ stat (fs w') (episode_page config slug) = Ok (File out)).
Proof.
  revert w. induction episodes as [|episode rest IH]; intros w Hall.
  { exists w. repeat split; try done; [apply grows_refl|].
    intros ? H. by apply elem_of_nil in H. }
  assert (Hep : renderable render_template config podcast (fs w) episode)
    by (apply Hall; by left).
  assert (Hall1 : forall e, e ∈ rest ->
            renderable render_template config podcast
              (fs (fst (render_episode render_template config podcast
                          (theme_dir config) episode w))) e).
  { intros e He. apply renderable_after_step; [done|]. apply Hall. by right. }
  destruct Hep as (slug & out & Hslug & Hs & Hne & Hl & Hout & Hok & Hroot
                   & Hfile & Hpage).
  pose proof (url_safe_is_name _ Hs Hne Hl) as Hname.
  destruct (render_episode_ok _ _ _ _ Hslug Hs Hne Hl Hout Hok Hroot Hfile Hpage)
    as (Hstep & Hresp & Hnp).
  cbn [render_episodes]. unfold mbind, M_bind, bind.
  rewrite Hstep in *. cbn [fst] in Hall1.
  set (kd := path_key (cwd (fs w)) (episode_dir config slug)) in *.
  set (kp := path_key (cwd (fs w)) (episode_page config slug)) in *.
  set (w1 := mkWorld _ _) in *.
  assert (Hg1 : grows (fs w) (fs w1)).
  { unfold w1. cbn [fs].
    eapply grows_trans; [apply adds_dirs_grows, with_dir_adds|].
    by apply grows_put_file. }
  assert (Hc1 : cwd (fs w1) = cwd (fs w)) by (by destruct Hg1).
  destruct (IH w1 Hall1) as (w' & Hrun & Hlog & Hg & Hframe & Hpages).
  exists w'. rewrite Hrun. split; [done|]. split; [done|].
  split; [by eapply grows_trans|]. split.
  - intros s Hsn Hnone. rewrite <- Hc1, Hframe, Hc1; [|done|].
    + unfold w1. cbn [fs]. rewrite node_at_put_ne.
      * apply node_at_with_dir_ne. by apply episode_page_not_dir_key.
      * intros Heq. apply episode_page_key_inj in Heq; [|done|done].
        subst s. by apply (Hnone episode); [left|].
    + intros e He. apply Hnone. by right.
  - intros e He. apply elem_of_cons in He as [->|He].
    + destruct (decide (Exists (fun e => episode_slug e = Some slug) rest))
        as [Hex|Hnex].
      * apply Exists_exists in Hex as (e2 & He2 & Hs2%episode_slug_iff).
        destruct (Hpages e2 He2) as (s' & e' & o' & Hs' & He' & Hse' & Ho' & Hst).
        assert (s' = slug) as -> by congruence.
        exists slug, e', o'. repeat split; try done. by right.
      * exists slug, episode, out. repeat split; try done; [by left|].
        apply (stat_file _ _ kp).
        -- eapply resolve_grows; [exact Hg|]. unfold w1. cbn [fs].
           eapply resolve_grows; [|exact Hresp]. by apply grows_put_file.
        -- unfold kp. rewrite <- Hc1, Hframe, Hc1; [|done|].
           ++ unfold w1. cbn [fs]. apply node_at_put_eq.
              by eapply not_dir_not_root.
           ++ intros e2 He2 Heq%episode_slug_iff. apply Hnex.
              apply Exists_exists. eauto.
    + destruct (Hpages e He) as (s' & e' & o' & Hs' & He' & Hse' & Ho' & Hst).
      exists s', e', o'. repeat split; try done. by right.
Qed.

End RenderFacts.

(** C4.  Each of the three render operations writes what its template
    renders to its destination, whatever the file system holds there
    before (nothing or a file), as long as the destination can be opened
    for writing: the sitemap to [<output>/sitemap.xml], the front page to
    [<output>/index.html] and, for every episode, a page to
    [<output>/episode/<slug>/index.html], where the page of the last
    episode with that slug stays.  No existence check guards a write; the
    only check creates a missing episode directory. *)
Theorem renders_overwrite_unconditionally
  (render_template : string -> string -> context -> result string)
  (config : config) (podcast : value) :
  (forall episodes template_env w out k,
     render_template template_env "sitemap.xml"
       (mkContext config (Some episodes) None None) = Ok out ->
     resolve (fs w) (join (output_dir config) ["sitemap.xml"]) = Ok (k, false) ->
     node_at (fs w) k <> Some Dir ->
     render_sitemap render_template config episodes template_env w
     = (mkWorld (put k (File out) (fs w)) (http_log w), Ok tt))
  /\ (forall episodes theme_env w out k,
        render_template theme_env "frontpage.html"
          (mkContext config (Some episodes) None (Some podcast)) = Ok out ->
        resolve (fs w) (join (output_dir config) ["index.html"]) = Ok (k, false) ->
        node_at (fs w) k <> Some Dir ->
        render_front_page render_template config episodes podcast theme_env w
        = (mkWorld (put k (File out) (fs w)) (http_log w), Ok tt))
  /\ (forall episodes w,
        (forall episode, episode ∈ episodes ->
                         renderable render_template config podcast (fs w) episode) ->
        exists w',
          render_episodes render_template config episodes podcast
            (theme_dir config) w = (w', Ok tt)
          /\ forall episode, episode ∈ episodes ->
               exists slug episode' out,
                 getitem episode "slug" = Ok (VStr slug)
                 /\ episode' ∈ episodes
                 /\ getitem episode' "slug" = Ok (VStr slug)
                 /\ episode_output render_template config podcast episode'
                    = Ok out
                 /\ stat (fs w') (episode_page config slug) = Ok (File out)).
Proof.
  split; [|split].
  - intros episodes env w out k Hout Hk Hn.
    unfold render_sitemap, mbind, M_bind, bind, lift. rewrite Hout.
    by apply write_file_ok.
  - intros episodes env w out k Hout Hk Hn.
    unfold render_front_page, mbind, M_bind, bind, lift. rewrite Hout.
    by apply write_file_ok.
  - intros episodes w Hall.
    destruct (render_episodes_ok render_template config podcast episodes w Hall)
      as (w' & Hrun & _ & _ & _ & Hpages).
    by exists w'.
Qed.

Lemma renders_overwrite_unconditionally_witness :
  render_sitemap demo_render (demo_config "") [episode_one] "templates" stale_world
  = (mkWorld (put ["site"; "sitemap.xml"] (File "templates/sitemap.xml")
                (fs stale_world)) [], Ok tt)
  /\ render_front_page demo_render (demo_config "") [episode_one] demo_feed
       "theme" stale_world
     = (mkWorld (put ["site"; "index.html"] (File "theme/frontpage.html")
                   (fs stale_world)) [], Ok tt)
  /\ exists w',
       render_episodes demo_render (demo_config "") [episode_one] demo_feed
         "theme" stale_world = (w', Ok tt)
       /\ stat (fs w') "site/episode/episode-one/index.html"
          = Ok (File "theme/episode.html").
Proof.
  destruct (renders_overwrite_unconditionally demo_render (demo_config "") demo_feed)
    as (Hsitemap & Hfront & Hepisodes).
  split; [|split].
  - apply (Hsitemap [episode_one] "templates" stale_world "templates/sitemap.xml");
      [reflexivity|reflexivity|]. vm_compute. discriminate.
  - apply (Hfront [episode_one] "theme" stale_world "theme/frontpage.html");
      [reflexivity|reflexivity|]. vm_compute. discriminate.
  - destruct (Hepisodes [episode_one] stale_world) as (w' & Hrun & Hpages).
    + intros episode ->%list_elem_of_singleton.
      exists "episode-one", "theme/episode.html".
      repeat split; try reflexivity; try (vm_compute; discriminate).
      vm_compute. lia.
    + exists w'. split; [exact Hrun|].
      destruct (Hpages episode_one)
        as (slug & e' & out & Hslug & ->%list_elem_of_singleton & _ & Hout & Hst);
        [by apply list_elem_of_singleton|].
      vm_compute in Hslug. injection Hslug as <-.
      vm_compute in Hout. injection Hout as <-. exact Hst.
Defined.

(** ** A feed without episodes *)

Section EmptyFeed.

Variable netloc_ok : string -> bool.
Variable markdown : string -> string.
Variable network : string -> result response.
Variable xmltodict_parse : string -> result value.
Variable Image_open : string -> result image.
Variable encode : image -> bool -> result string.
Variable resample : image -> Z -> Z -> string.
Variable render_template : string -> string -> context -> result string.



End EmptyFeed.



(** ** Cover art *)

Open Scope Z_scope.

(** The rounded side is a neighbour of the exact quotient, and at least 1. *)
Lemma round_aspect_near (num den : Z) (le_key : Z -> Z -> bool) :
  0 < num -> 0 < den ->
  1 <= round_aspect num den le_key
  /\ Z.abs (round_aspect num den le_key * den - num) < den.
Proof.
  intros Hn Hd. unfold round_aspect.
  pose proof (Z.div_mod num den ltac:(lia)) as Hdm.
  pose proof (Z.mod_pos_bound num den Hd) as Hm.
  assert (Hlo : 0 <= num / den) by (apply Z.div_pos; lia).
  set (lo := num / den) in *. set (m := num mod den) in *.
  destruct (Z.eqb_spec m 0) as [Hz|Hnz]; destruct (le_key _ _); nia.
Qed.

Lemma thumbnail_size_bounds (w h x y x' y' : Z) :
  0 < w -> 0 < h -> 0 < x -> 0 < y ->
  thumbnail_size w h x y = Some (x', y') ->
  1 <= x' <= x /\ 1 <= y' <= y /\ x' <= w /\ y' <= h
  /\ Z.abs (x' * h - y' * w) < Z.max w h.
Proof.
  intros Hw Hh Hx Hy. unfold thumbnail_size.
  assert (Hfit : (w <=? x) && (h <=? y) = true \/ (x < w \/ y < h)).
  { destruct (Z.leb_spec w x); destruct (Z.leb_spec h y); auto. }
  destruct Hfit as [->|Hbig]; [discriminate|].
  destruct ((w <=? x) && (h <=? y)); [discriminate|].
  destruct (Z.leb_spec (y * w) (x * h)) as [Hc|Hc]; intros [= <- <-].
  - match goal with |- context [round_aspect ?n ?d ?k] =>
      destruct (round_aspect_near n d k) as [H1 Habs]; [nia|lia|];
      set (r := round_aspect n d k) in * end.
    assert (y < h) by nia.
    apply Z.abs_lt in Habs.
    repeat split; try lia; nia.
  - match goal with |- context [round_aspect ?n ?d ?k] =>
      destruct (round_aspect_near n d k) as [H1 Habs]; [nia|lia|];
      set (r := round_aspect n d k) in * end.
    assert (x < w) by nia.
    apply Z.abs_lt in Habs.
    repeat split; try lia; nia.
Qed.

Lemma thumbnail_bounds (resample : image -> Z -> Z -> string) (img : image) (x y : Z) :
  0 < width img -> 0 < height img -> 0 < x -> 0 < y ->
  let small := thumbnail resample img x y in
  1 <= width small <= x /\ 1 <= height small <= y
  /\ width small <= width img /\ height small <= height img
  /\ Z.abs (width small * height img - height small * width img)
     < Z.max (width img) (height img).
Proof.
  intros Hw Hh Hx Hy. unfold thumbnail.
  destruct (thumbnail_size (width img) (height img) x y) as [[x' y']|] eqn:Hs.
  - pose proof (thumbnail_size_bounds _ _ _ _ _ _ Hw Hh Hx Hy Hs) as Hb.
    destruct ((x' =? width img) && (y' =? height img)) eqn:Hsame.
    + apply andb_prop in Hsame as [->%Z.eqb_eq ->%Z.eqb_eq]. exact Hb.
    + exact Hb.
  - unfold thumbnail_size in Hs.
    destruct (Z.leb_spec (width img) x) as [Hfw|Hfw];
      destruct (Z.leb_spec (height img) y) as [Hfh|Hfh]; cbn [andb] in Hs;
      try (by destruct (y * width img <=? x * height img)).
    cbv zeta. repeat split; lia.
Qed.

Close Scope Z_scope.

Section CoverFacts.

Variable network : string -> result response.
Variable Image_open : string -> result image.
Variable encode : image -> bool -> result string.
Variable resample : image -> Z -> Z -> string.

Lemma cover_present output_dir cover_art_url w :
  fs_exists (fs w) (join output_dir ["cover_art.jpg"]) = true ->
  download_and_resize_cover_image network Image_open encode resample
    output_dir cover_art_url w = (w, Ok tt).
Proof.
  intros Hex.
  unfold download_and_resize_cover_image, mbind, M_bind, bind, path_exists.
  by rewrite Hex.
Qed.

(** The step on a cover that is missing, in an output directory that is
    there: both files are written, the full-size one first. *)
Lemma cover_missing output_dir url r img full small kc ks w :
  resolve (fs w) (join output_dir ["cover_art.jpg"]) = Ok (kc, false) ->
  node_at (fs w) kc = None ->
  resolve (fs w) (join output_dir ["small_cover_art.jpg"]) = Ok (ks, false) ->
  node_at (fs w) ks <> Some Dir ->
  network url = Ok r ->
  Image_open (content r) = Ok img ->
  encode img false = Ok full ->
  encode (thumbnail resample img 1000 1000) true = Ok small ->
  download_and_resize_cover_image network Image_open encode resample
    output_dir (VStr url) w
  = (mkWorld (put ks (File small) (put kc (File full) (fs w)))
       (http_log w ++ [url]), Ok tt).
Proof.
  intros Hkc Hnone Hks Hns Hr Himg Hfull Hsmall.
  unfold download_and_resize_cover_image.
  unfold mbind at 1, M_bind at 1, bind at 1, path_exists at 1.
  rewrite (fs_exists_none _ _ _ _ Hkc Hnone).
  unfold mbind at 1, M_bind at 1, bind at 1, requests_get. rewrite Hr.
  unfold mbind at 1, M_bind at 1, bind at 1, lift at 1. rewrite Himg.
  unfold mbind at 1, M_bind at 1, bind at 1.
  rewrite (save_ok _ _ _ _ kc full); [|done|by cbn [fs]; rewrite Hnone|done].
  apply (save_ok _ _ _ _ ks small); cbn [fs]; [| |done].
  - eapply resolve_grows; [|exact Hks]. apply grows_put_file. by rewrite Hnone.
  - destruct (decide (ks = kc)) as [->|Hne].
    + rewrite node_at_put_eq; [done|]. by eapply not_dir_not_root.
    + by rewrite node_at_put_ne.
Qed.

End CoverFacts.

(** C5.  If [<output>/cover_art.jpg] exists, the cover-art step issues no
    GET and writes neither file, also when the thumbnail is missing.
    Otherwise the thumbnail of an image is at most 1000 pixels on each
    side and at least 1, no side is larger than in the original, and the
    aspect ratio is kept: the sides are those of the original scaled by one
    factor, the shorter one rounded to a neighbouring whole pixel.  When
    the output directory is there and the two destinations can be opened
    for writing, the step then writes the full-size image and this
    thumbnail. *)
Theorem cover_art_skipped_or_bounded
  (network : string -> result response) (Image_open : string -> result image)
  (encode : image -> bool -> result string) (resample : image -> Z -> Z -> string) :
  (forall output_dir cover_art_url w,
     fs_exists (fs w) (join output_dir ["cover_art.jpg"]) = true ->
     download_and_resize_cover_image network Image_open encode resample
       output_dir cover_art_url w = (w, Ok tt))
  /\ (forall img,
        (0 < width img)%Z -> (0 < height img)%Z ->
        let small := thumbnail resample img 1000 1000 in
        (1 <= width small <= 1000)%Z /\ (1 <= height small <= 1000)%Z
        /\ (width small <= width img)%Z /\ (height small <= height img)%Z
        /\ (Z.abs (width small * height img - height small * width img)
            < Z.max (width img) (height img))%Z)
  /\ (forall output_dir url r img full small kc ks w,
        resolve (fs w) (join output_dir ["cover_art.jpg"]) = Ok (kc, false) ->
        node_at (fs w) kc = None ->
        resolve (fs w) (join output_dir ["small_cover_art.jpg"]) = Ok (ks, false) ->
        node_at (fs w) ks <> Some Dir ->
        network url = Ok r ->
        Image_open (content r) = Ok img ->
        encode img false = Ok full ->
        encode (thumbnail resample img 1000 1000) true = Ok small ->
        download_and_resize_cover_image network Image_open encode resample
          output_dir (VStr url) w
        = (mkWorld (put ks (File small) (put kc (File full) (fs w)))
             (http_log w ++ [url]), Ok tt)).
Proof.
  split; [|split].
  - apply cover_present.
  - intros img Hw Hh. by apply thumbnail_bounds.
  - apply cover_missing.
Qed.

Lemma cover_art_skipped_or_bounded_witness :
  download_and_resize_cover_image demo_network demo_Image_open demo_encode
    demo_resample "site" (VStr "https://cdn.example/art.png") cover_world
  = (cover_world, Ok tt)
  /\ (1 <= width (thumbnail demo_resample demo_image 1000 1000) <= 1000)%Z
  /\ download_and_resize_cover_image demo_network demo_Image_open demo_encode
       demo_resample "site" (VStr "https://cdn.example/art.png") site_world
     = (mkWorld
          (put ["site"; "small_cover_art.jpg"]
             (File "optimized jpeg of small cover pixels")
             (put ["site"; "cover_art.jpg"] (File "jpeg of cover pixels")
                (fs site_world)))
          ["https://cdn.example/art.png"], Ok tt).
Proof.
  destruct (cover_art_skipped_or_bounded demo_network demo_Image_open demo_encode
              demo_resample) as (Hskip & Hbound & Hrun).
  split; [|split].
  - apply Hskip. vm_compute. reflexivity.
  - apply (Hbound demo_image); reflexivity.
  - apply (Hrun "site" "https://cdn.example/art.png" (mkResponse 200 "cover")
             demo_image "jpeg of cover pixels"
             "optimized jpeg of small cover pixels"
             ["site"; "cover_art.jpg"] ["site"; "small_cover_art.jpg"] site_world);
      try reflexivity.
    vm_compute. discriminate.
Defined.

(** * Further properties of the code *)

(** ** The directories *)

Lemma make_dirs_loop_adds output_dir dirs w :
  let w' := fst (make_dirs_loop output_dir dirs w) in
  adds_dirs (fs w) (fs w') /\ http_log w' = http_log w.
Proof.
  revert w. induction dirs as [|dir rest IH]; intros w.
  { split; [apply adds_dirs_refl|done]. }
  cbn [make_dirs_loop]. unfold mbind, M_bind, bind, path_exists.
  destruct (fs_exists (fs w) (join output_dir [dir])); cbn [negb mret M_ret ret].
  - apply IH.
  - destruct (makedirs_adds (join output_dir [dir]) w) as [Ha Hl].
    destruct (makedirs (join output_dir [dir]) w) as [w1 [[]|e]]; cbn [fst] in *;
      [|by split].
    destruct (IH w1) as [Ha' Hl']. split.
    + by eapply adds_dirs_trans.
    + cbv zeta in *. congruence.
Qed.



Lemma make_dirs_adds output_dir w :
  let w' := fst (make_dirs output_dir w) in
  adds_dirs (fs w) (fs w') /\ http_log w' = http_log w.
Proof. apply make_dirs_loop_adds. Qed.



(** ** Failures before and during the extraction *)

Section SiteFailures.

Variable netloc_ok : string -> bool.
Variable markdown : string -> string.
Variable network : string -> result response.
Variable xmltodict_parse : string -> result value.
Variable Image_open : string -> result image.
Variable encode : image -> bool -> result string.
Variable resample : image -> Z -> Z -> string.
Variable render_template : string -> string -> context -> result string.

(** X2.  When the directories are made and the feed cannot be fetched, or
    its body cannot be parsed, the run ends with that exception after one
    GET, and all it has done to the file system is to make directories:
    no asset and no page is written. *)
Theorem feed_failure_leaves_only_directories
  (config : config) (w w0 : world) (e : exn) :
  make_dirs (output_dir config) w = (w0, Ok tt) ->
  match network (feed_URL config) with
  | Raise e' => Raise e'
  | Ok r => xmltodict_parse (content r)
  end = Raise e ->
  make_site netloc_ok markdown network xmltodict_parse Image_open encode
    resample render_template config w
  = (mkWorld (fs w0) (http_log w ++ [feed_URL config]), Raise e)
  /\ adds_dirs (fs w) (fs w0).
Proof.
  intros Hdirs Hfail.
  pose proof (make_dirs_adds (output_dir config) w) as [Ha Hl].
  rewrite Hdirs in Ha, Hl. cbn [fst] in Ha, Hl. split; [|done].
  unfold make_site, mbind, M_bind, bind. rewrite Hdirs.
  unfold download_and_parse_feed, mbind, M_bind, bind, requests_get, lift.
  rewrite Hl.
  destruct (network (feed_URL config)) as [r|e']; [by rewrite Hfail|].
  by injection Hfail as ->.
Qed.

(** X3.  The [try] of [make_site] stops a [KeyError] only: any other
    exception of the extraction ends the run right after the feed was
    fetched, with no audio, no cover and no page. *)
Theorem other_exceptions_abort_site
  (config : config) (w w0 w1 : world) (podcast podcast' : value) (e : exn) :
  make_dirs (output_dir config) w = (w0, Ok tt) ->
  download_and_parse_feed network xmltodict_parse (feed_URL config) w0
  = (w1, Ok podcast) ->
  process_episodes netloc_ok markdown podcast = (podcast', Raise e) ->
  is_KeyError e = false ->
  make_site netloc_ok markdown network xmltodict_parse Image_open encode
    resample render_template config w
  = (w1, Raise e).
Proof.
  intros Hdirs Hfeed Hraise Hkey. unfold make_site, mbind, M_bind, bind.
  rewrite Hdirs, Hfeed. unfold try_process_episodes. rewrite Hraise.
  by destruct e.
Qed.

End SiteFailures.

Lemma feed_failure_leaves_only_directories_witness :
  demo_make_site "https://pod.example/nowhere.xml" empty_world
  = (mkWorld (fs site_world) ["https://pod.example/nowhere.xml"],
     Raise RequestException)
  /\ adds_dirs (fs empty_world) (fs site_world).
Proof.
  exact (feed_failure_leaves_only_directories no_brackets demo_markdown
           demo_network demo_parse demo_Image_open demo_encode demo_resample
           demo_render (demo_config "https://pod.example/nowhere.xml")
           empty_world site_world RequestException eq_refl eq_refl).
Defined.

Lemma other_exceptions_abort_site_witness :
  wide_make_site "https://pod.example/single.xml" empty_world
  = (mkWorld (fs site_world) ["https://pod.example/single.xml"], Raise TypeError).
Proof.
  exact (other_exceptions_abort_site no_brackets demo_markdown wide_network
           wide_parse demo_Image_open demo_encode demo_resample demo_render
           (demo_config "https://pod.example/single.xml") empty_world site_world
           _ single_item_feed single_item_feed TypeError
           eq_refl eq_refl eq_refl eq_refl).
Defined.

(** X4.  A channel with a single item reaches the extractor as the mapping
    of that item.  When the item carries an enclosure, the loop runs over
    the keys of the mapping and raises a [TypeError] at the key
    [enclosure]; the feed is not touched, and the [try] of [make_site]
    does not stop this exception. *)
Theorem single_item_feed_raises
  (netloc_ok : string -> bool) (markdown : string -> string)
  (podcast : value) (d : list (string * value)) :
  feed_items podcast = Ok (VDict d) ->
  is_Some (dict_get d "enclosure") ->
  process_episodes netloc_ok markdown podcast = (podcast, Raise TypeError)
  /\ try_process_episodes netloc_ok markdown podcast = (podcast, Raise TypeError).
Proof.
  intros Hitems Henc.
  pose proof (process_episodes_single_item netloc_ok markdown _ _ Hitems Henc) as H.
  split; [done|]. unfold try_process_episodes. by rewrite H.
Qed.

Lemma single_item_feed_raises_witness :
  process_episodes no_brackets demo_markdown single_item_feed
  = (single_item_feed, Raise TypeError)
  /\ try_process_episodes no_brackets demo_markdown single_item_feed
     = (single_item_feed, Raise TypeError).
Proof.
  apply (single_item_feed_raises no_brackets demo_markdown single_item_feed
           [("title", VStr "Episode One!");
            ("description", VStr "First.");
            ("enclosure", VDict [("@url", VStr "https://cdn.example/ep1.mp3?token=abc");
                                 ("@type", VStr "audio/mpeg")])]).
  - reflexivity.
  - vm_compute. eauto.
Defined.

(** ** What the extraction leaves behind *)

(** X5.  When the loop raises at an item, the items in front of it are
    already updated and stay so, the item itself keeps the entries set
    before the exception, and the items behind it are as parsed.  This is
    the feed the front page is rendered from after a [KeyError]. *)
Theorem extraction_failure_keeps_earlier_updates
  (netloc_ok : string -> bool) (markdown : string -> string)
  (podcast : value) (pre : list value) (bad bad' : value) (e : exn)
  (rest : list value) :
  feed_items podcast = Ok (VList (pre ++ bad :: rest)) ->
  forallb (item_ok netloc_ok) pre = true ->
  process_item netloc_ok markdown bad = (bad', Raise e) ->
  snd (process_episodes netloc_ok markdown podcast) = Raise e
  /\ feed_items (fst (process_episodes netloc_ok markdown podcast))
     = Ok (VList (map (episode_record netloc_ok markdown) pre ++ bad' :: rest)).
Proof.
  intros Hitems Hpre Hbad. unfold process_episodes. rewrite Hitems.
  cbn [iterate]. rewrite (process_items_stops _ _ _ _ _ _ _ _ Hpre Hbad).
  cbn [fst snd]. split; [done|]. by apply (feed_items_with_items _ _ _ Hitems).
Qed.

Lemma extraction_failure_keeps_earlier_updates_witness :
  snd (process_episodes no_brackets demo_markdown untitled_feed)
  = Raise (KeyError "title")
  /\ feed_items (fst (process_episodes no_brackets demo_markdown untitled_feed))
     = Ok (VList [episode_record no_brackets demo_markdown item_one;
                  VDict [("description", VStr "Lost title.");
                         ("enclosure",
                          VDict [("@url", VStr "https://cdn.example/ep3.mp3")]);
                         ("url", VStr "https://cdn.example/ep3.mp3")];
                  item_three]).
Proof.
  exact (extraction_failure_keeps_earlier_updates no_brackets demo_markdown
           untitled_feed [item_one] item_untitled _ (KeyError "title")
           [item_three] eq_refl eq_refl eq_refl).
Defined.

Lemma getitem_set_eq d k v : getitem (VDict (dict_set d k v)) k = Ok v.
Proof. unfold getitem. by rewrite dict_get_set_eq. Qed.

Lemma getitem_set_ne d k k' v :
  k <> k' -> getitem (VDict (dict_set d k v)) k' = getitem (VDict d) k'.
Proof. intros H. unfold getitem. by rewrite dict_get_set_ne. Qed.

Section Postcondition.

Variable netloc_ok : string -> bool.
Variable markdown : string -> string.

(** Only a mapping is ever appended, and it then holds every derived
    entry. *)
Lemma process_item_appended item item' :
  process_item netloc_ok markdown item = (item', Ok true) ->
  (exists d, item = VDict d) /\ episode_complete item'.
Proof.
  unfold process_item, mbind, M_bind, bind, item_has, item_get, item_set, lift.
  destruct item as [|s|d|l]; cbn [contains].
  - discriminate.
  - destruct (str_contains "enclosure" s); discriminate.
  - destruct (dict_get d "enclosure") as [enc|] eqn:E1.
    2:{ rewrite bool_decide_eq_false_2 by (by intros [? ?]). discriminate. }
    rewrite bool_decide_eq_true_2 by eauto.
    unfold getitem at 1. rewrite E1.
    destruct (getitem enc "@url") as [u|] eqn:E2; [|discriminate].
    cbn [setitem].
    unfold getitem at 1. rewrite dict_get_set_ne by done.
    destruct (dict_get d "title") as [[|t| |]|]; try discriminate.
    cbn [py_slugify setitem].
    unfold getitem at 1. rewrite !dict_get_set_ne by done.
    destruct (dict_get d "description") as [[|ds| |]|]; try discriminate.
    cbn [py_markdown setitem].
    unfold getitem at 1. rewrite !dict_get_set_ne, dict_get_set_eq by done.
    destruct u as [|url| |]; try discriminate. cbn [py_url_path].
    destruct (urlparse netloc_ok url) as [r|]; [|discriminate].
    cbn [fmap result_fmap setitem]. intros [= <-].
    split; [by exists d|].
    exists url, (slugify t), (basename (path r)).
    unfold enclosure_url, mbind, result_mbind.
    rewrite !(getitem_set_ne _ _ "enclosure") by done.
    rewrite !(getitem_set_ne _ _ "url"), getitem_set_eq by done.
    rewrite !(getitem_set_ne _ _ "slug"), !getitem_set_eq by done.
    unfold getitem at 1. rewrite E1. cbn [result_bind]. by rewrite E2.
  - destruct (existsb (is_str "enclosure") l); discriminate.
Qed.

Lemma process_items_refs i (items items' : list value) refs :
  process_items netloc_ok markdown i items = (items', Ok refs) ->
  forall r, r ∈ refs ->
    exists d item',
      (i <= r)%nat /\ items !! (r - i)%nat = Some (VDict d)
      /\ items' !! (r - i)%nat = Some item' /\ episode_complete item'.
Proof.
  revert i items' refs. induction items as [|item rest IH];
    intros i items' refs; cbn [process_items].
  { intros [= <- <-] r Hr. by apply elem_of_nil in Hr. }
  destruct (process_item netloc_ok markdown item) as [item1 [b|e]] eqn:Hitem;
    [|discriminate].
  destruct (process_items netloc_ok markdown (S i) rest) as [rest' [refs'|e]] eqn:Hrest;
    [|discriminate].
  cbn [fmap result_fmap]. intros [= <- <-] r Hr.
  assert (Hlater : r ∈ refs' ->
            exists d item',
              (i <= r)%nat /\ (item :: rest) !! (r - i)%nat = Some (VDict d)
              /\ (item1 :: rest') !! (r - i)%nat = Some item'
              /\ episode_complete item').
  { intros Hin. destruct (IH _ _ _ Hrest r Hin) as (d & item' & Hle & H1 & H2 & Hc).
    exists d, item'. replace (r - i)%nat with (S (r - S i)) by lia.
    repeat split; try done. lia. }
  destruct b; [|by apply Hlater].
  apply elem_of_cons in Hr as [->|Hr]; [|by apply Hlater].
  destruct (process_item_appended _ _ Hitem) as [[d ->] Hc].
  exists d, item1. rewrite Nat.sub_diag. by repeat split.
Qed.

Lemma deref_complete (items : list value) (refs : list nat) :
  (forall r, r ∈ refs -> exists item, items !! r = Some item /\ episode_complete item) ->
  Forall episode_complete (omap (fun i => items !! i) refs)
  /\ length (omap (fun i => items !! i) refs) = length refs.
Proof.
  induction refs as [|r refs IH]; intros Hall; [by split|].
  destruct (Hall r) as (item & Hitem & Hc); [by left|].
  destruct IH as [IH1 IH2]; [intros r' Hr'; apply Hall; by right|].
  simpl. rewrite Hitem. simpl. split; [by constructor|]. simpl in IH2. by f_equal.
Qed.

(** X6.  Whenever the extraction returns, every reference it returns
    denotes an item of the feed, and every episode record holds what the
    later stages look up: the audio URL under [url] and under the
    enclosure, the slug and the file name, all of them strings. *)
Theorem extracted_episodes_are_complete (podcast podcast' : value) (refs : list nat) :
  process_episodes netloc_ok markdown podcast = (podcast', Ok refs) ->
  Forall episode_complete (episodes_of podcast' refs)
  /\ length (episodes_of podcast' refs) = length refs.
Proof.
  unfold process_episodes.
  destruct (feed_items podcast) as [iterable|] eqn:Hitems; [|discriminate].
  destruct (iterate iterable) as [items|] eqn:Hiter; [|discriminate].
  destruct (process_items netloc_ok markdown 0 items) as [items' r] eqn:Hrun.
  intros [= <- ->].
  pose proof (process_items_refs _ _ _ _ Hrun) as Hrefs.
  destruct iterable as [|s|d|l]; cbn [iterate] in Hiter; try discriminate;
    injection Hiter as <-.
  - assert (refs = []) as ->.
    { destruct refs as [|r refs]; [done|].
      destruct (Hrefs r) as (d & _ & _ & Hd & _); [by left|].
      unfold chars in Hd. rewrite list_lookup_fmap in Hd.
      by destruct (list_ascii_of_string s !! (r - 0)%nat). }
    unfold episodes_of. rewrite Hitems. by split.
  - assert (refs = []) as ->.
    { destruct refs as [|r refs]; [done|].
      destruct (Hrefs r) as (d' & _ & _ & Hd & _); [by left|].
      rewrite list_lookup_fmap in Hd. by destruct (d !! (r - 0)%nat). }
    unfold episodes_of. rewrite Hitems. by split.
  - unfold episodes_of. rewrite (feed_items_with_items _ _ _ Hitems).
    apply deref_complete. intros r Hr.
    destruct (Hrefs r Hr) as (d & item' & _ & _ & Hitem' & Hc).
    rewrite Nat.sub_0_r in Hitem'. eauto.
Qed.

End Postcondition.

Lemma extracted_episodes_are_complete_witness :
  Forall episode_complete
    (episodes_of (fst (process_episodes no_brackets demo_markdown demo_feed)) [0%nat])
  /\ length (episodes_of (fst (process_episodes no_brackets demo_markdown demo_feed))
               [0%nat]) = 1%nat.
Proof.
  exact (extracted_episodes_are_complete no_brackets demo_markdown demo_feed
           _ [0%nat] eq_refl).
Defined.

(** ** More on the audio downloader *)

Section AudioRuns.

Variable network : string -> result response.
Variable config : config.

(** The turn of an episode whose destination does not exist and whose GET
    fails. *)
Lemma download_audio_file_unfetched episode p url e w :
  audio_path config episode = Ok p ->
  fs_exists (fs w) p = false ->
  enclosure_url episode = Ok (VStr url) ->
  network url = Raise e ->
  download_audio_file network config episode w
  = (mkWorld (fs w) (http_log w ++ [url]), Raise e).
Proof.
  intros Hp Hex Hurl Hnet. apply audio_path_inv in Hp as (fn & Hfn & ->).
  unfold download_audio_file, mbind, M_bind, bind, lift, path_exists.
  rewrite Hfn. cbn [result_mbind result_bind as_str]. rewrite Hex. cbn [negb].
  unfold enclosure_url, mbind in Hurl. rewrite Hurl.
  unfold requests_get. by rewrite Hnet.
Qed.

(** X7.  A GET that fails ends the loop with its exception: the episodes
    in front were handled, nothing is created at the destination of the
    failing episode, and the episodes behind it are not looked at. *)
Theorem audio_failure_stops_loop
  (pre : list value) (episode : value) (rest : list value)
  (w w1 : world) (p url : string) (e : exn) :
  download_audio_files network config pre w = (w1, Ok tt) ->
  audio_path config episode = Ok p ->
  fs_exists (fs w1) p = false ->
  enclosure_url episode = Ok (VStr url) ->
  network url = Raise e ->
  download_audio_files network config (pre ++ episode :: rest)%list w
  = (mkWorld (fs w1) (http_log w1 ++ [url]), Raise e).
Proof.
  intros Hpre Hp Hex Hurl Hnet.
  rewrite download_audio_files_app, Hpre.
  cbn [download_audio_files]. unfold mbind, M_bind, bind.
  by rewrite (download_audio_file_unfetched _ _ _ _ _ Hp Hex Hurl Hnet).
Qed.

(** X8.  After a run of the loop that succeeded, a second run over the same
    episodes issues no GET and changes no file: every destination exists
    by then, whatever was written to it. *)
Theorem audio_rerun_changes_nothing (episodes : list value) (w w1 : world) :
  download_audio_files network config episodes w = (w1, Ok tt) ->
  download_audio_files network config episodes w1 = (w1, Ok tt).
Proof.
  intros Hrun. apply download_audio_files_present.
  by apply (download_audio_files_ok_exist _ _ _ _ _ Hrun).
Qed.

(** X9.  Of the episodes that lead to one destination, the first one wins:
    when the destination is missing at the start, in a directory that is
    there, a run that returns leaves there the body fetched for the first
    episode that leads to it, and the later ones are skipped. *)
Theorem first_episode_wins_destination
  (pre : list value) (episode : value) (post : list value)
  (w w1 : world) (p url : string) (k : list string) (r : response) :
  download_audio_files network config (pre ++ episode :: post)%list w = (w1, Ok tt) ->
  (forall episode' p', episode' ∈ pre -> audio_path config episode' = Ok p' ->
                       path_key (cwd (fs w)) p' <> k) ->
  audio_path config episode = Ok p ->
  resolve (fs w) p = Ok (k, false) ->
  node_at (fs w) k = None ->
  enclosure_url episode = Ok (VStr url) ->
  network url = Ok r ->
  stat (fs w1) p = Ok (File (content r)).
Proof.
  intros Hrun Hpre Hp Hk Hnone Hurl Hnet.
  destruct (download_audio_files_first network config _ _ _ _ _ _ _
              Hrun Hp Hk Hnone Hpre)
    as (url' & r' & _ & _ & Hurl' & Hnet' & _ & Hstat).
  assert (url' = url) as -> by congruence.
  assert (r' = r) as -> by congruence. done.
Qed.


End AudioRuns.

Lemma audio_failure_stops_loop_witness :
  download_audio_files demo_network (demo_config "")
    [episode_one; episode_lost; episode_three] site_world
  = (mkWorld (put ["site"; "audio"; "ep1.mp3"] (File "audio one") (fs site_world))
       ["https://cdn.example/ep1.mp3?token=abc"; "https://gone.example/lost.mp3"],
     Raise RequestException).
Proof.
  exact (audio_failure_stops_loop demo_network (demo_config "")
           [episode_one] episode_lost [episode_three] site_world
           (mkWorld (put ["site"; "audio"; "ep1.mp3"] (File "audio one")
                       (fs site_world))
              ["https://cdn.example/ep1.mp3?token=abc"])
           "site/audio/lost.mp3" "https://gone.example/lost.mp3"
           RequestException eq_refl eq_refl eq_refl eq_refl eq_refl).
Defined.

Lemma audio_rerun_changes_nothing_witness :
  download_audio_files demo_network (demo_config "") [episode_one; episode_three]
    (mkWorld
       (put ["site"; "audio"; "ep3.mp3"] (File "audio three")
          (put ["site"; "audio"; "ep1.mp3"] (File "audio one") (fs site_world)))
       ["https://cdn.example/ep1.mp3?token=abc"; "https://cdn.example/ep3.mp3"])
  = (mkWorld
       (put ["site"; "audio"; "ep3.mp3"] (File "audio three")
          (put ["site"; "audio"; "ep1.mp3"] (File "audio one") (fs site_world)))
       ["https://cdn.example/ep1.mp3?token=abc"; "https://cdn.example/ep3.mp3"],
     Ok tt).
Proof.
  apply (audio_rerun_changes_nothing demo_network (demo_config "")
           [episode_one; episode_three] site_world).
  vm_compute. reflexivity.
Defined.

Lemma first_episode_wins_destination_witness :
  stat (fs (fst (download_audio_files demo_network (demo_config "")
                   [episode_one; episode_mirror] site_world)))
    "site/audio/ep1.mp3"
  = Ok (File "audio one").
Proof.
  apply (first_episode_wins_destination demo_network (demo_config "")
           [] episode_one [episode_mirror] site_world _
           "site/audio/ep1.mp3" "https://cdn.example/ep1.mp3?token=abc"
           ["site"; "audio"; "ep1.mp3"] (mkResponse 200 "audio one")).
  - vm_compute. reflexivity.
  - intros e p' He. by apply elem_of_nil in He.
  - reflexivity.
  - vm_compute. reflexivity.
  - vm_compute. reflexivity.
  - reflexivity.
  - reflexivity.
Defined.


